(** * Quota Excess Respondent Finder: the reconciliation core of
      [streamlit_app.py], embedded and verified.

    The embedding follows the three functions of the source that carry
    logic: [validate_data_file], [validate_universe_file] and
    [process_files].  Python exceptions are values of an error monad,
    pandas frames are lists of rows together with their column labels,
    and every pandas call of the source has a definition of the same
    name here.

    Modelling choices, all local to the pandas layer:
    - a number is a [float64] value: a finite one is kept as an exact
      rational, next to [-0.0], [+inf], [-inf] and NaN, and the signs of
      zeros and infinities are those of IEEE 754; the rounding of
      binary floating point and the wrap-around of [int64] are not
      modelled, and [int64] and [float64] values that denote the same
      number are identified;
    - a respondent row is typed (integer id, three optional strings);
      a row of the quota table has a country and an industry, both
      strings, and named quota cells, each a number, a text or a blank
      (pandas refuses to merge on a key column of the quota table that
      holds no text at all, and such tables are left out);
    - pandas infers a numeric dtype for a column exactly when it has at
      least one row and no text cell;
    - [sort_values] uses the default [kind='quicksort'], whose order
      among equal keys is whatever the numpy build does: it is a
      member of the class [SortKind], and every theorem holds for all
      its instances. *)

From Stdlib Require Import String Ascii List Bool ZArith QArith Qround Lia.
From Stdlib Require Import Permutation Sorting.Sorted.
Import ListNotations.

#[local] Open Scope string_scope.
#[local] Open Scope list_scope.
#[local] Open Scope Z_scope.

(* ------------------------------------------------------------------ *)
(** ** Exceptions *)

Inductive exn_class : Type :=
| ValueError
| KeyError
| TypeError
| OverflowError.

(** An exception object: its class and [str(e)]. *)
Record exn : Type := Raise { exn_type : exn_class; exn_str : string }.

Definition result (A : Type) : Type := (exn + A)%type.

Definition ret {A : Type} (a : A) : result A := inr a.
Definition raise {A : Type} (c : exn_class) (msg : string) : result A :=
  inl (Raise c msg).
Definition bind {A B : Type} (m : result A) (k : A -> result B) : result B :=
  match m with
  | inl e => inl e
  | inr a => k a
  end.

Declare Scope py_scope.
Delimit Scope py_scope with py.
Notation "x <- m ;; k" := (bind m (fun x => k))
  (at level 61, m at next level, right associativity) : py_scope.
Notation "m ;;; k" := (bind m (fun _ => k))
  (at level 61, right associativity) : py_scope.
#[local] Open Scope py_scope.

(** [for x in l: body x], stopping at the first exception. *)
Fixpoint for_each {A : Type} (body : A -> result unit) (l : list A) : result unit :=
  match l with
  | [] => ret tt
  | x :: rest => body x ;;; for_each body rest
  end.

(** A comprehension whose element expression may raise. *)
Fixpoint mapM {A B : Type} (f : A -> result B) (l : list A) : result (list B) :=
  match l with
  | [] => ret []
  | x :: rest => y <- f x ;; ys <- mapM f rest ;; ret (y :: ys)
  end.

(* ------------------------------------------------------------------ *)
(** ** Python helpers *)

(** [s in l] for a list of strings. *)
Definition mem (s : string) (l : list string) : bool :=
  existsb (String.eqb s) l.

(** [sep.join(l)]. *)
Definition join (sep : string) (l : list string) : string :=
  String.concat sep l.

(** Truthiness of a list. *)
Definition nonempty {A : Type} (l : list A) : bool :=
  match l with
  | [] => false
  | _ :: _ => true
  end.

(** [l[start:]] with Python's treatment of a negative start. *)
Definition slice_from {A : Type} (start : Z) (l : list A) : list A :=
  if start <? 0
  then skipn (Z.to_nat (Z.max 0 (Z.of_nat (length l) + start))) l
  else skipn (Z.to_nat start) l.

(** [sorted] on integers. *)
Fixpoint insert_sorted (x : Z) (l : list Z) : list Z :=
  match l with
  | [] => [x]
  | y :: rest => if x <=? y then x :: l else y :: insert_sorted x rest
  end.

Definition sorted (l : list Z) : list Z :=
  fold_right insert_sorted [] l.

(** [Series.dropna()] on a column of optional strings. *)
Fixpoint dropna (l : list (option string)) : list string :=
  match l with
  | [] => []
  | Some s :: rest => s :: dropna rest
  | None :: rest => dropna rest
  end.

(** [Series.unique()]: the distinct values in order of first appearance. *)
Fixpoint unique_from (seen : list string) (l : list string) : list string :=
  match l with
  | [] => []
  | x :: rest =>
      if mem x seen then unique_from seen rest
      else x :: unique_from (x :: seen) rest
  end.

Definition unique (l : list string) : list string := unique_from [] l.

(* ------------------------------------------------------------------ *)
(** ** Numbers *)

(** A [float64] value: a finite number, kept as an exact rational, or one
    of the IEEE specials.  [Fin 0] is [+0.0] and [NZero] is [-0.0]. *)
Inductive num : Type :=
| Fin (q : Q)
| NZero
| PInf
| NInf
| NaN.

Coercion Fin : Q >-> num.

Definition of_int (z : Z) : num := Fin (inject_Z z).

Definition Qsign (q : Q) : comparison := (Qnum q ?= 0)%Z.

Definition notna (x : num) : bool :=
  match x with
  | NaN => false
  | _ => true
  end.

Definition isnan (x : num) : bool := negb (notna x).

Definition isinf (x : num) : bool :=
  match x with
  | PInf | NInf => true
  | _ => false
  end.

Definition iszero (x : num) : bool :=
  match x with
  | Fin q => match Qsign q with Eq => true | _ => false end
  | NZero => true
  | _ => false
  end.

(** The sign bit; that of a NaN plays no part below. *)
Definition signbit (x : num) : bool :=
  match x with
  | Fin q => match Qsign q with Lt => true | _ => false end
  | NZero | NInf => true
  | PInf | NaN => false
  end.

Definition zero (negative : bool) : num := if negative then NZero else Fin 0.
Definition inf (negative : bool) : num := if negative then NInf else PInf.

(** The value of a finite number. *)
Definition to_Q (x : num) : Q :=
  match x with
  | Fin q => q
  | _ => 0
  end.

(** [x - y]; a difference that is exactly zero is [+0.0], but for
    [-0.0 - 0.0]. *)
Definition sub (x y : num) : num :=
  match x, y with
  | NaN, _ | _, NaN => NaN
  | PInf, PInf | NInf, NInf => NaN
  | PInf, _ | _, NInf => PInf
  | NInf, _ | _, PInf => NInf
  | Fin a, Fin b => Fin (Qred (a - b))
  | Fin a, NZero => Fin (Qred a)
  | NZero, Fin b => if iszero y then NZero else Fin (Qred (- b))
  | NZero, NZero => Fin 0
  end.

(** [x * y]; the sign of a zero or of an infinity is the exclusive or of
    the two sign bits. *)
Definition mul (x y : num) : num :=
  if isnan x || isnan y then NaN
  else
    let negative := xorb (signbit x) (signbit y) in
    if isinf x || isinf y then
      if iszero x || iszero y then NaN else inf negative
    else if iszero x || iszero y then zero negative
    else Fin (Qred (to_Q x * to_Q y)).

(** [x / y] as numpy divides: a zero divisor gives an infinity (or NaN for
    0/0), never an exception. *)
Definition div (x y : num) : num :=
  if isnan x || isnan y then NaN
  else
    let negative := xorb (signbit x) (signbit y) in
    if isinf x then
      if isinf y then NaN else inf negative
    else if isinf y then zero negative
    else if iszero y then
      if iszero x then NaN else inf negative
    else if iszero x then zero negative
    else Fin (Qred (to_Q x / to_Q y)).

(** [x > y]; false as soon as one side is NaN; the two zeros are equal. *)
Definition gtb (x y : num) : bool :=
  match x, y with
  | NaN, _ | _, NaN => false
  | PInf, PInf | NInf, NInf => false
  | PInf, _ | _, NInf => true
  | NInf, _ | _, PInf => false
  | _, _ => negb (Qle_bool (to_Q x) (to_Q y))
  end.

(** [Series.clip(lower=lo)] and [Series.clip(upper=hi)], elementwise; a NaN
    stays a NaN. *)
Definition clip_lower (lo : num) (x : num) : num :=
  if gtb lo x then lo else x.

Definition clip_upper (hi : num) (x : num) : num :=
  if gtb x hi then hi else x.

(** Nearest integer, ties to even. *)
Definition round_half_even (q : Q) : Z :=
  let f := Qfloor q in
  match ((q - inject_Z f) ?= (1 # 2))%Q with
  | Lt => f
  | Gt => f + 1
  | Eq => if Z.even f then f else f + 1
  end.

(** [Series.round(2)]; a negative value that rounds to zero keeps its
    sign. *)
Definition round2 (x : num) : num :=
  match x with
  | Fin q =>
      let r := Fin (Qred (inject_Z (round_half_even (q * 100)) / 100)) in
      if iszero r && signbit x then NZero else r
  | _ => x
  end.

(** [int(x)] on a float: truncation toward zero; an infinity or a NaN
    raises. *)
Definition int (x : num) : result Z :=
  match x with
  | Fin q => ret (Z.quot (Qnum q) (Z.pos (Qden q)))
  | NZero => ret 0
  | PInf | NInf => raise OverflowError "cannot convert float infinity to integer"
  | NaN => raise ValueError "cannot convert float NaN to integer"
  end.

(* ------------------------------------------------------------------ *)
(** ** The two input tables *)

(** One respondent, as a row of the data file. *)
Record respondent : Type := {
  responseid : Z;
  r_Country : option string;
  r_Industry : option string;
  r_Revenue_Range : option string
}.

(** The data file: [df.columns] and the rows. *)
Record data_frame : Type := {
  d_columns : list string;
  d_rows : list respondent
}.

(** A parsed cell of the universe (quota) file.  A number is any
    [float64] value a file can hold: [inf], [-inf] and [-0.0] are read as
    numbers. *)
Inductive cell : Type :=
| Number (x : num)
| Text (s : string)
| Blank.
Arguments Number x%_Q.

(** A row of the universe file: its country, its industry and its other
    cells by label; a label without an entry reads as a blank. *)
Record quota_row : Type := {
  q_Country : string;
  q_Industry : string;
  q_cells : list (string * cell)
}.

Fixpoint lookup_cell (cells : list (string * cell)) (col : string) : cell :=
  match cells with
  | [] => Blank
  | (label, v) :: rest => if String.eqb label col then v else lookup_cell rest col
  end.

(** [row[col]]. *)
Definition get (row : quota_row) (col : string) : cell :=
  if String.eqb col "Country" then Text (q_Country row)
  else if String.eqb col "Industry" then Text (q_Industry row)
  else lookup_cell (q_cells row) col.

(** The universe file: [df.columns] and the rows. *)
Record universe_frame : Type := {
  u_columns : list string;
  u_rows : list quota_row
}.

(** [df[col]] on the universe file. *)
Definition column (df : universe_frame) (col : string) : list cell :=
  map (fun row => get row col) (u_rows df).

Definition is_text (c : cell) : bool :=
  match c with
  | Text _ => true
  | _ => false
  end.

(** [pd.api.types.is_numeric_dtype]. *)
Definition is_numeric_dtype (values : list cell) : bool :=
  nonempty values && forallb (fun c => negb (is_text c)) values.

(* ------------------------------------------------------------------ *)
(** ** Validation *)

(** [[col for col in required if col not in columns]]. *)
Definition missing_from (columns required : list string) : list string :=
  filter (fun col => negb (mem col columns)) required.

Definition validate_data_file (df : data_frame) (revenue_ranges : list string)
  : result unit :=
  let required_columns := ["responseid"; "Country"; "Industry"; "Revenue Range"] in
  let missing_columns := missing_from (d_columns df) required_columns in
  if nonempty missing_columns then
    raise ValueError
      ("Data file is missing required columns: " ++ join ", " missing_columns)
  else
    let invalid_revenue_ranges :=
      unique (dropna (map r_Revenue_Range (d_rows df))) in
    let invalid_revenue_ranges :=
      filter (fun r => negb (mem r revenue_ranges)) invalid_revenue_ranges in
    if nonempty invalid_revenue_ranges then
      raise ValueError
        ("Data file contains invalid Revenue Range values: "
           ++ join ", " invalid_revenue_ranges
           ++ ". Expected values are: " ++ join ", " revenue_ranges)
    else ret tt.

Definition validate_universe_file (df : universe_frame) : result (list string) :=
  let required_columns := ["Industry"; "Country"] in
  let missing_columns := missing_from (u_columns df) required_columns in
  if nonempty missing_columns then
    raise ValueError
      ("Universe file is missing required columns: " ++ join ", " missing_columns)
  else
    let revenue_ranges :=
      filter (fun col => negb (mem col ["Industry"; "Country"])) (u_columns df) in
    if negb (nonempty revenue_ranges) then
      raise ValueError
        "Universe file must have at least one revenue range column (e.g., 'Less than 250M', '250M to 500M')."
    else
      for_each
        (fun col =>
           if negb (is_numeric_dtype (column df col)) then
             raise ValueError
               ("Universe file column '" ++ col ++ "' must contain numeric values.")
           else ret tt)
        revenue_ranges ;;;
      ret revenue_ranges.

(* ------------------------------------------------------------------ *)
(** ** Frames inside [process_files] *)

(** A frame: its column labels and its rows. *)
Record frame (R : Type) : Type := Frame {
  columns : list string;
  rows : list R
}.
Arguments Frame {R} _ _.
Arguments columns {R} _.
Arguments rows {R} _.

(** A segment key: country, industry, revenue range. *)
Definition segment : Type := (string * string * string)%type.

(** Row of [grouped_data]. *)
Record grouped_row : Type := {
  g_key : segment;
  g_count : Z;
  g_response_ids : list Z
}.

(** Row of [universe_df_melted]. *)
Record melted_row : Type := {
  l_Country : cell;
  l_Industry : cell;
  l_Revenue_Range : string;
  l_quota : cell
}.

(** Row of [merged_df] right after the merge; [j_quota] is still a cell. *)
Record joined_row : Type := {
  j_key : segment;
  j_count : Z;
  j_response_ids : list Z;
  j_quota : cell
}.

(** Row of [merged_df] once [excess] and [fulfillment_percentage] are set. *)
Record merged_row : Type := {
  m_key : segment;
  m_count : Z;
  m_response_ids : list Z;
  m_quota : num;
  m_excess : num;
  m_fulfillment_percentage : num
}.

(** An entry of [excess_respondents]. *)
Record excess_respondent : Type := {
  e_Country : string;
  e_Industry : string;
  e_Revenue_Range : string;
  e_Quota : num;
  e_Count : Z;
  e_Excess : num;
  e_Response_ID : Z
}.

(** Row of the fulfillment table that is returned. *)
Record fulfillment_row : Type := {
  f_Country : string;
  f_Industry : string;
  f_Revenue_Range : string;
  f_Count : Z;
  f_Quota : num;
  f_Fulfillment_Percentage : num
}.

(* ------------------------------------------------------------------ *)
(** ** The pandas calls of [process_files] *)

(** [df[name] = ...]: a new label goes last, an old one keeps its place. *)
Definition setitem (cols : list string) (name : string) : list string :=
  if mem name cols then cols else cols ++ [name].

(** [DataFrame.rename(columns=mapping)]. *)
Fixpoint rename (mapping : list (string * string)) (col : string) : string :=
  match mapping with
  | [] => col
  | (old, new) :: rest => if String.eqb old col then new else rename rest col
  end.

(** *** Step 1: [groupby(...).agg(...).reset_index()] *)

(** The group key of a row; [groupby] drops a row with a missing key
    ([dropna=True] is the default). *)
Definition segment_of (r : respondent) : option segment :=
  match r_Country r, r_Industry r, r_Revenue_Range r with
  | Some c, Some i, Some v => Some (c, i, v)
  | _, _, _ => None
  end.

(** Group keys come out sorted ([sort=True] is the default), tuple-wise. *)
Definition segment_compare (a b : segment) : comparison :=
  let '(c1, i1, v1) := a in
  let '(c2, i2, v2) := b in
  match String.compare c1 c2 with
  | Eq => match String.compare i1 i2 with
          | Eq => String.compare v1 v2
          | o => o
          end
  | o => o
  end.

(** Groups in key order, each with the ids of its rows in row order. *)
Fixpoint add_to_group (k : segment) (id : Z) (groups : list (segment * list Z))
  : list (segment * list Z) :=
  match groups with
  | [] => [(k, [id])]
  | (k', ids) :: rest =>
      match segment_compare k k' with
      | Eq => (k', ids ++ [id]) :: rest
      | Lt => (k, [id]) :: groups
      | Gt => (k', ids) :: add_to_group k id rest
      end
  end.

Definition add_row (groups : list (segment * list Z)) (r : respondent)
  : list (segment * list Z) :=
  match segment_of r with
  | Some k => add_to_group k (responseid r) groups
  | None => groups
  end.

Definition groupby (rs : list respondent) : list (segment * list Z) :=
  fold_left add_row rs [].

(** [count=('responseid', 'size')] and
    [response_ids=('responseid', lambda x: sorted(list(x)))]. *)
Definition agg (g : segment * list Z) : grouped_row :=
  {| g_key := fst g;
     g_count := Z.of_nat (length (snd g));
     g_response_ids := sorted (snd g) |}.

(** [str(KeyError(label))]. *)
Definition key_error {A : Type} (label : string) : result A :=
  raise KeyError ("'" ++ label ++ "'").

Definition groupby_agg (df : data_frame) (by_ : list string) : result (frame grouped_row) :=
  match missing_from (d_columns df) by_ with
  | col :: _ => key_error col
  | [] =>
      if mem "responseid" (d_columns df) then
        ret (Frame (by_ ++ ["count"; "response_ids"])
                   (map agg (groupby (d_rows df))))
      else raise KeyError "Column(s) ['responseid'] do not exist"
  end.

(** *** Step 2: [melt] *)

(** The long-form row of one cell. *)
Definition melted (col : string) (row : quota_row) : melted_row :=
  {| l_Country := get row "Country";
     l_Industry := get row "Industry";
     l_Revenue_Range := col;
     l_quota := get row col |}.

(** The value columns one after the other, each over all the rows. *)
Definition unpivot (df : universe_frame) (value_vars : list string)
  : list melted_row :=
  flat_map (fun col => map (melted col) (u_rows df)) value_vars.

Definition melt (df : universe_frame) (id_vars value_vars : list string)
  (var_name value_name : string) : result (frame melted_row) :=
  match missing_from (u_columns df) (id_vars ++ value_vars) with
  | _ :: _ as missing =>
      raise KeyError
        ("The following id_vars or value_vars are not present in the DataFrame: "
           ++ join ", " missing)
  | [] => ret (Frame (id_vars ++ [var_name; value_name]) (unpivot df value_vars))
  end.

(** *** Step 3: [merge(..., how='left')] *)

Definition cell_is (s : string) (c : cell) : bool :=
  match c with
  | Text t => String.eqb s t
  | _ => false
  end.

Definition same_segment (k : segment) (m : melted_row) : bool :=
  let '(c, i, v) := k in
  cell_is c (l_Country m) && cell_is i (l_Industry m)
  && String.eqb v (l_Revenue_Range m).

Definition joined (g : grouped_row) (quota : cell) : joined_row :=
  {| j_key := g_key g;
     j_count := g_count g;
     j_response_ids := g_response_ids g;
     j_quota := quota |}.

(** Every left row is kept, in order; it is repeated for each right row
    with its key, and gets a blank quota when there is none. *)
Definition merge_row (right : list melted_row) (g : grouped_row) : list joined_row :=
  match filter (same_segment (g_key g)) right with
  | [] => [joined g Blank]
  | matches => map (fun m => joined g (l_quota m)) matches
  end.

Definition merge (left : frame grouped_row) (right : frame melted_row)
  (on : list string) : frame joined_row :=
  Frame (columns left ++ filter (fun c => negb (mem c on)) (columns right))
        (flat_map (merge_row (rows right)) (rows left)).

(** *** Step 4: [excess] and [fulfillment_percentage] *)

(** An operand of the column arithmetic; a text makes it raise. *)
Definition as_number (c : cell) : result num :=
  match c with
  | Number x => ret x
  | Blank => ret NaN
  | Text _ => raise TypeError "unsupported operand type(s) for -: 'int' and 'str'"
  end.

Definition calculate_row (row : joined_row) : result merged_row :=
  quota <- as_number (j_quota row) ;;
  let count := of_int (j_count row) in
  let excess := sub count quota in
  let excess := clip_lower (Fin 0) excess in
  let fulfillment_percentage :=
    clip_upper (Fin 100) (mul (div count quota) (Fin 100)) in
  ret {| m_key := j_key row;
         m_count := j_count row;
         m_response_ids := j_response_ids row;
         m_quota := quota;
         m_excess := excess;
         m_fulfillment_percentage := fulfillment_percentage |}.

Definition calculate (merged_df : frame joined_row) : result (frame merged_row) :=
  rs <- mapM calculate_row (rows merged_df) ;;
  ret (Frame (setitem (setitem (columns merged_df) "excess") "fulfillment_percentage")
             rs).

(** Steps 1 to 4: [merged_df] as Step 5 finds it. *)
Definition reconcile (data_df : data_frame) (universe_df : universe_frame)
  (revenue_ranges : list string) : result (frame merged_row) :=
  grouped_data <- groupby_agg data_df ["Country"; "Industry"; "Revenue Range"] ;;
  universe_df_melted <-
    melt universe_df ["Country"; "Industry"] revenue_ranges "Revenue Range" "quota" ;;
  let merged_df :=
    merge grouped_data universe_df_melted ["Country"; "Industry"; "Revenue Range"] in
  calculate merged_df.

(** *** Step 5: the excess respondents *)

Definition excess_entry (row : merged_row) (resp_id : Z) : excess_respondent :=
  let '(country, industry, revenue_range) := m_key row in
  {| e_Country := country;
     e_Industry := industry;
     e_Revenue_Range := revenue_range;
     e_Quota := m_quota row;
     e_Count := m_count row;
     e_Excess := m_excess row;
     e_Response_ID := resp_id |}.

(** The body of the loop over [merged_df.iterrows()]. *)
Definition excess_of_row (row : merged_row) : result (list excess_respondent) :=
  if gtb (m_excess row) (Fin 0) then
    n <- int (m_excess row) ;;
    let excess_ids := slice_from (- n) (m_response_ids row) in
    ret (map (excess_entry row) excess_ids)
  else ret [].

(** The loop, threading the list it appends to. *)
Fixpoint iterrows (merged_rows : list merged_row)
  (excess_respondents : list excess_respondent) : result (list excess_respondent) :=
  match merged_rows with
  | [] => ret excess_respondents
  | row :: rest =>
      entries <- excess_of_row row ;;
      iterrows rest (excess_respondents ++ entries)
  end.

(** *** Step 6: the fulfillment table *)

(** Position of a value under [sort_values(ascending=False)]: larger first,
    NaN last; the two zeros are equal. *)
Definition before (x y : num) : bool :=
  match x, y with
  | _, NaN => true
  | NaN, _ => false
  | PInf, _ => true
  | _, PInf => false
  | _, NInf => true
  | NInf, _ => false
  | _, _ => Qle_bool (to_Q y) (to_Q x)
  end.

(** The sorting algorithm behind [sort_values]: some function that returns
    its argument reordered by [fulfillment_percentage], descending. *)
Class SortKind : Type := {
  sort_values : list merged_row -> list merged_row;
  sort_values_perm : forall l, Permutation (sort_values l) l;
  sort_values_sorted : forall l,
    StronglySorted
      (fun a b => before (m_fulfillment_percentage a) (m_fulfillment_percentage b) = true)
      (sort_values l)
}.

Definition round_fulfillment (row : merged_row) : merged_row :=
  {| m_key := m_key row;
     m_count := m_count row;
     m_response_ids := m_response_ids row;
     m_quota := m_quota row;
     m_excess := m_excess row;
     m_fulfillment_percentage := round2 (m_fulfillment_percentage row) |}.

Definition display_row (row : merged_row) : fulfillment_row :=
  let '(country, industry, revenue_range) := m_key row in
  {| f_Country := country;
     f_Industry := industry;
     f_Revenue_Range := revenue_range;
     f_Count := m_count row;
     f_Quota := m_quota row;
     f_Fulfillment_Percentage := m_fulfillment_percentage row |}.

(** Lines 104 to 115: the column check, the selection and the renaming. *)
Definition select_columns (fulfillment_df : frame merged_row)
  : result (frame fulfillment_row) :=
  let required_columns :=
    ["Country"; "Industry"; "Revenue Range"; "count"; "quota";
     "fulfillment_percentage"] in
  let missing_columns := missing_from (columns fulfillment_df) required_columns in
  if nonempty missing_columns then
    raise ValueError
      ("Internal error: Missing columns in fulfillment DataFrame: "
         ++ join ", " missing_columns)
  else
    ret (Frame
           (map (rename [("count", "Count"); ("quota", "Quota");
                         ("fulfillment_percentage", "Fulfillment Percentage (%)")])
                required_columns)
           (map display_row (rows fulfillment_df))).

(** The [except Exception as e] clause around the whole body. *)
Definition try_except {A : Type} (body : result A) : result A :=
  match body with
  | inl e => raise ValueError ("Error processing files: " ++ exn_str e)
  | inr v => ret v
  end.

Definition process_files {kind : SortKind} (data_df : data_frame)
  (universe_df : universe_frame) (revenue_ranges : list string)
  : result (list excess_respondent * frame fulfillment_row) :=
  try_except
    ((* Steps 1 to 4 *)
     merged_df <- reconcile data_df universe_df revenue_ranges ;;
     (* Step 5 *)
     excess_respondents <- iterrows (rows merged_df) [] ;;
     (* Step 6 *)
     let fulfillment_df :=
       Frame (columns merged_df)
             (filter (fun row => notna (m_quota row)) (rows merged_df)) in
     let fulfillment_df :=
       Frame (columns fulfillment_df)
             (map round_fulfillment (rows fulfillment_df)) in
     let fulfillment_df :=
       Frame (columns fulfillment_df) (sort_values (rows fulfillment_df)) in
     fulfillment_df <- select_columns fulfillment_df ;;
     ret (excess_respondents, fulfillment_df)).

(** The two [except] clauses of [main]: what [st.error] is given. *)
Definition st_error (e : exn) : string :=
  match exn_type e with
  | ValueError => "Error: " ++ exn_str e
  | _ => "An unexpected error occurred: " ++ exn_str e
  end.

(* ------------------------------------------------------------------ *)
(** ** An instance of [SortKind]: insertion sort *)

Fixpoint insert_desc (row : merged_row) (l : list merged_row) : list merged_row :=
  match l with
  | [] => [row]
  | y :: rest =>
      if before (m_fulfillment_percentage row) (m_fulfillment_percentage y)
      then row :: l
      else y :: insert_desc row rest
  end.

Definition insertion_sort (l : list merged_row) : list merged_row :=
  fold_right insert_desc [] l.

(* ------------------------------------------------------------------ *)
(** ** Scenario A of the specification *)

Definition respondent_of (id : Z) (country industry revenue_range : string)
  : respondent :=
  {| responseid := id;
     r_Country := Some country;
     r_Industry := Some industry;
     r_Revenue_Range := Some revenue_range |}.

Definition data_columns : list string :=
  ["responseid"; "Country"; "Industry"; "Revenue Range"].

Definition scenario_A_data : data_frame :=
  {| d_columns := data_columns;
     d_rows := [respondent_of 1 "USA" "Tech" "1B+";
                respondent_of 2 "USA" "Tech" "1B+";
                respondent_of 3 "USA" "Tech" "1B+"] |}.

Definition scenario_A_universe : universe_frame :=
  {| u_columns := ["Country"; "Industry"; "1B+"];
     u_rows := [{| q_Country := "USA"; q_Industry := "Tech";
                   q_cells := [("1B+", Number 2)] |}] |}.

(* ------------------------------------------------------------------ *)
(** ** Further concrete tables *)

(** A quota table with one row (USA, Tech) and the single column 1B+. *)
Definition one_cell_universe (quota : cell) : universe_frame :=
  {| u_columns := ["Country"; "Industry"; "1B+"];
     u_rows := [{| q_Country := "USA"; q_Industry := "Tech";
                   q_cells := [("1B+", quota)] |}] |}.

(** Scenario A with a fourth respondent, from a segment that the quota
    table does not have. *)
Definition unmatched_data : data_frame :=
  {| d_columns := data_columns;
     d_rows := [respondent_of 1 "USA" "Tech" "1B+";
                respondent_of 2 "USA" "Tech" "1B+";
                respondent_of 3 "USA" "Tech" "1B+";
                respondent_of 4 "UK" "Tech" "1B+"] |}.

(** A respondent whose revenue range is missing. *)
Definition no_revenue_range (id : Z) (country industry : string) : respondent :=
  {| responseid := id;
     r_Country := Some country;
     r_Industry := Some industry;
     r_Revenue_Range := None |}.

(** Scenario C: a revenue range that is no column of the quota table. *)
Definition scenario_C_data : data_frame :=
  {| d_columns := data_columns;
     d_rows := [respondent_of 1 "USA" "Tech" "1B+";
                respondent_of 2 "USA" "Tech" "2B+"] |}.

Definition scenario_C_revenue_ranges : list string :=
  ["Less than 250M"; "250M to 500M"; "500M to 1B"; "1B+"].

(** A quota table whose two revenue-range columns both hold a text. *)
Definition two_text_columns : universe_frame :=
  {| u_columns := ["Country"; "Industry"; "500M to 1B"; "1B+"];
     u_rows := [{| q_Country := "USA"; q_Industry := "Tech";
                   q_cells := [("500M to 1B", Text "N/A");
                               ("1B+", Text "N/A")] |}] |}.

(** A frame as Step 6 would find it if the [quota] column were lost. *)
Definition frame_without_quota : frame merged_row :=
  Frame ["Country"; "Industry"; "Revenue Range"; "count"; "response_ids";
         "excess"; "fulfillment_percentage"] [].

(** A quota table that has only its two key columns. *)
Definition keys_only_universe : universe_frame :=
  {| u_columns := ["Industry"; "Country"];
     u_rows := [{| q_Country := "USA"; q_Industry := "Tech"; q_cells := [] |}] |}.

(** Scenario A without the Country column in the data file. *)
Definition data_without_country : data_frame :=
  {| d_columns := ["responseid"; "Industry"; "Revenue Range"];
     d_rows := d_rows scenario_A_data |}.

(** Three respondents of segment (USA, Tech, 1B+) and two of
    (USA, Retail, 1B+). *)
Definition two_segments_data : data_frame :=
  {| d_columns := data_columns;
     d_rows := [respondent_of 5 "USA" "Tech" "1B+";
                respondent_of 1 "USA" "Retail" "1B+";
                respondent_of 3 "USA" "Tech" "1B+";
                respondent_of 2 "USA" "Retail" "1B+";
                respondent_of 4 "USA" "Tech" "1B+"] |}.

(** Quotas for both segments of [two_segments_data], in column 1B+. *)
Definition two_segments_universe (tech retail : cell) : universe_frame :=
  {| u_columns := ["Industry"; "Country"; "1B+"];
     u_rows := [{| q_Country := "USA"; q_Industry := "Tech";
                   q_cells := [("1B+", tech)] |};
                {| q_Country := "USA"; q_Industry := "Retail";
                   q_cells := [("1B+", retail)] |}] |}.


(* ------------------------------------------------------------------ *)
(** ** Vocabulary of the statements *)

(** Two rows in the order of [sort_values(ascending=False)]. *)
Definition descending (a b : merged_row) : Prop :=
  before (m_fulfillment_percentage a) (m_fulfillment_percentage b) = true.

(** The grouping and join key. *)
Definition by_columns : list string := ["Country"; "Industry"; "Revenue Range"].

(** The columns of [merged_df] after Step 4. *)
Definition merged_columns : list string :=
  ["Country"; "Industry"; "Revenue Range"; "count"; "response_ids"; "quota";
   "excess"; "fulfillment_percentage"].

(** The columns of the fulfillment table that is returned. *)
Definition fulfillment_columns : list string :=
  ["Country"; "Industry"; "Revenue Range"; "Count"; "Quota";
   "Fulfillment Percentage (%)"].

(** The rows of [merged_df] before Step 4, from the two input tables. *)
Definition joined_rows (data_df : data_frame) (universe_df : universe_frame)
  (revenue_ranges : list string) : list joined_row :=
  flat_map (merge_row (unpivot universe_df revenue_ranges))
           (map agg (groupby (d_rows data_df))).

(** The filter of Step 6: [merged_df['quota'].notna()]. *)
Definition has_quota (row : merged_row) : bool := notna (m_quota row).

(** What a row of [merged_df] looks like in the fulfillment table. *)
Definition report_row (row : merged_row) : fulfillment_row :=
  display_row (round_fulfillment row).

(** Equality of segment keys, decided by the order of the keys. *)
Definition segment_eqb (a b : segment) : bool :=
  match segment_compare a b with
  | Eq => true
  | _ => false
  end.

(** The respondent has all three key fields, and they are those of [k]. *)
Definition in_segment (k : segment) (r : respondent) : bool :=
  match segment_of r with
  | Some k' => segment_eqb k k'
  | None => false
  end.

(** The ids of the respondents of a segment, in row order. *)
Definition ids_of (k : segment) (rs : list respondent) : list Z :=
  map responseid (filter (in_segment k) rs).

(** The ids of the group of a key, if it has one. *)
Fixpoint lookup (k : segment) (groups : list (segment * list Z))
  : option (list Z) :=
  match groups with
  | [] => None
  | (k', ids) :: rest => if segment_eqb k k' then Some ids else lookup k rest
  end.

(** The key of one group is strictly before that of the other. *)
Definition key_lt (g h : segment * list Z) : Prop :=
  segment_compare (fst g) (fst h) = Lt.

(** The groups stand in strictly ascending order of their keys. *)
Definition keys_ascending (groups : list (segment * list Z)) : Prop :=
  StronglySorted key_lt groups.

(** The labels that [validate_universe_file] returns: all but Industry and
    Country, in column order. *)
Definition revenue_columns (cols : list string) : list string :=
  filter (fun col => negb (mem col ["Industry"; "Country"])) cols.

(** The segment of an excess row. *)
Definition excess_segment (e : excess_respondent) : segment :=
  (e_Country e, e_Industry e, e_Revenue_Range e).

(** The segment of a row of the fulfillment table. *)
Definition fulfillment_segment (f : fulfillment_row) : segment :=
  (f_Country f, f_Industry f, f_Revenue_Range f).

(** The columns that Step 6 requires before it selects them. *)
Definition required_columns : list string :=
  ["Country"; "Industry"; "Revenue Range"; "count"; "quota";
   "fulfillment_percentage"].

(** The respondent has a country, an industry and a revenue range. *)
Definition has_segment (x : respondent) : bool :=
  match segment_of x with
  | Some _ => true
  | None => false
  end.

(** The sum of a list of integers. *)
Definition total (l : list Z) : Z := fold_right Z.add 0 l.


(** How often a key stands in a list of keys. *)
Definition occurrences (k : segment) (keys : list segment) : nat :=
  length (filter (segment_eqb k) keys).


(* ------------------------------------------------------------------ *)
(** ** Reading the uploaded files *)

(** An uploaded file: its name and what it holds. *)
Record uploaded_file : Type := {
  name : string;
  content : string
}.

(** [s.endswith(suffix)]: some tail of [s] is [suffix]. *)
Fixpoint endswith (s suffix : string) : bool :=
  String.eqb s suffix
  || match s with
     | EmptyString => false
     | String _ rest => endswith rest suffix
     end.

(** [pd.read_csv] and [pd.read_excel], for the kind of table [F] that the
    caller goes on to use. *)
Class Reader (F : Type) : Type := {
  read_csv : uploaded_file -> result F;
  read_excel : uploaded_file -> result F
}.

Definition read_file {F : Type} {reader : Reader F} (file : uploaded_file)
  : result F :=
  let body :=
    if endswith (name file) ".csv" then read_csv file
    else if endswith (name file) ".xlsx" then read_excel file
    else raise ValueError
           "Unsupported file format. Please upload a CSV or Excel file." in
  match body with
  | inl e => raise ValueError ("Error reading file: " ++ exn_str e)
  | inr df => ret df
  end.

(* ------------------------------------------------------------------ *)
(** ** The page *)

(** What [main] puts on the page, call by call. *)
Inductive widget : Type :=
| Title (body : string)
| Header (body : string)
| Subheader (body : string)
| Markdown (body : string)
| FileUploader (label : string) (type : list string)
| Spinner (text : string)
| ExcessTable (data : list excess_respondent)
| FulfillmentTable (data : frame fulfillment_row)
| DownloadButton (label data file_name mime : string)
| Info (body : string)
| Error (body : string).

(** What [main] takes from its surroundings: the readers of pandas for the
    two tables, [to_csv(index=False)] for the two outputs, and the text of
    the file format instructions. *)
Class Host : Type := {
  data_reader : Reader data_frame;
  universe_reader : Reader universe_frame;
  excess_to_csv : list excess_respondent -> string;
  fulfillment_to_csv : frame fulfillment_row -> string;
  instructions : string
}.

(** A piece of [main]: the widgets it has shown, and how it ended. *)
Definition app (A : Type) : Type := (list widget * result A)%type.

Definition show (w : widget) : app unit := ([w], ret tt).

Definition call {A : Type} (m : result A) : app A := ([], m).

Definition then_ {A B : Type} (m : app A) (k : A -> app B) : app B :=
  match m with
  | (shown, inl e) => (shown, inl e)
  | (shown, inr a) => let (more, b) := k a in (shown ++ more, b)
  end.

Declare Scope app_scope.
Delimit Scope app_scope with app.
Notation "x <- m ;; k" := (then_ m (fun x => k))
  (at level 61, m at next level, right associativity) : app_scope.
Notation "m ;;; k" := (then_ m (fun _ => k))
  (at level 61, right associativity) : app_scope.

(** The body of the [try] block of [main]. *)
Definition results {kind : SortKind} {host : Host}
  (data_file universe_file : uploaded_file) : app unit :=
  (show (Spinner "Reading files...") ;;;
   data_df <- call (read_file (reader := data_reader) data_file) ;;
   universe_df <- call (read_file (reader := universe_reader) universe_file) ;;
   show (Spinner "Validating files...") ;;;
   revenue_ranges <- call (validate_universe_file universe_df) ;;
   call (validate_data_file data_df revenue_ranges) ;;;
   show (Spinner "Processing files...") ;;;
   out <- call (process_files data_df universe_df revenue_ranges) ;;
   let excess_respondents := fst out in
   let fulfillment_df := snd out in
   show (Header "Results") ;;;
   show (Subheader "Excess Respondents") ;;;
   (if nonempty excess_respondents then
      show (ExcessTable excess_respondents) ;;;
      show (DownloadButton "Download Excess Respondents as CSV"
              (excess_to_csv excess_respondents)
              "excess_respondents.csv" "text/csv")
    else
      show (Info "No excess respondents found. All counts are within quotas.")) ;;;
   show (Subheader "Quota Fulfillment Statistics") ;;;
   show (Markdown "This table shows how much each quota is filled, sorted from closest to completion (100%) to furthest from completion (0%).") ;;;
   show (FulfillmentTable fulfillment_df) ;;;
   show (DownloadButton "Download Quota Fulfillment Stats as CSV"
           (fulfillment_to_csv fulfillment_df)
           "quota_fulfillment_stats.csv" "text/csv"))%app.

(** What [main] shows before it looks at the files. *)
Definition page {host : Host} : list widget :=
  [Title "Quota Excess Respondent Finder";
   Header "File Format Instructions";
   Markdown instructions;
   Header "Upload Files";
   FileUploader "Upload Data File (CSV or Excel)" ["csv"; "xlsx"];
   FileUploader "Upload Universe File (CSV or Excel)" ["csv"; "xlsx"]].

(** [main]: the widgets of one run of the script, given what the two
    uploaders hold. *)
Definition main {kind : SortKind} {host : Host}
  (data_file universe_file : option uploaded_file) : list widget :=
  page ++
  match data_file, universe_file with
  | Some data_file, Some universe_file =>
      match results data_file universe_file with
      | (shown, inr _) => shown
      | (shown, inl e) => shown ++ [Error (st_error e)]
      end
  | _, _ => []
  end.

(** A reader for the examples: any CSV file holds [table], and no Excel
    file can be read. *)
Definition fixed_reader {F : Type} (table : F) : Reader F :=
  {| read_csv := fun _ => ret table;
     read_excel := fun _ => raise TypeError "not a workbook" |}.

(** A host for the examples, whose uploads hold the tables given. *)
Definition fixed_host (data_df : data_frame) (universe_df : universe_frame)
  : Host :=
  {| data_reader := fixed_reader data_df;
     universe_reader := fixed_reader universe_df;
     excess_to_csv := fun _ => "excess rows";
     fulfillment_to_csv := fun _ => "fulfillment rows";
     instructions := "how to format the files" |}.

Definition file_named (file_name : string) : uploaded_file :=
  {| name := file_name; content := "" |}.

(* ------------------------------------------------------------------ *)
(** * Properties *)

(** ** The order of [sort_values] and the insertion-sort instance *)

Lemma Qle_bool_total (a b : Q) : Qle_bool a b = false -> Qle_bool b a = true.
Proof.
  intros H. apply Qle_bool_iff.
  destruct (Qlt_le_dec b a) as [Hlt|Hle].
  - now apply Qlt_le_weak.
  - apply Qle_bool_iff in Hle. congruence.
Qed.

Lemma before_total (x y : num) : before x y = false -> before y x = true.
Proof.
  destruct x as [a| | | |], y as [b| | | |]; simpl; try congruence;
    apply Qle_bool_total.
Qed.

Lemma before_trans (x y z : num) :
  before x y = true -> before y z = true -> before x z = true.
Proof.
  destruct x as [a| | | |], y as [b| | | |], z as [c| | | |]; simpl;
    try congruence;
    rewrite !Qle_bool_iff; intros H1 H2; eapply Qle_trans; eauto.
Qed.

Lemma insert_desc_perm (row : merged_row) (l : list merged_row) :
  Permutation (insert_desc row l) (row :: l).
Proof.
  induction l as [|y rest IH]; simpl.
  - apply Permutation_refl.
  - destruct (before _ _).
    + apply Permutation_refl.
    + rewrite IH. apply perm_swap.
Qed.

Lemma insertion_sort_perm (l : list merged_row) :
  Permutation (insertion_sort l) l.
Proof.
  induction l as [|x rest IH]; simpl.
  - constructor.
  - rewrite insert_desc_perm. now constructor.
Qed.

Lemma insert_desc_sorted (row : merged_row) (l : list merged_row) :
  StronglySorted descending l -> StronglySorted descending (insert_desc row l).
Proof.
  induction 1 as [|y rest Hs IH Hall]; simpl.
  - repeat constructor.
  - destruct (before (m_fulfillment_percentage row) (m_fulfillment_percentage y))
      eqn:E.
    + constructor.
      * now constructor.
      * constructor; [exact E|].
        eapply Forall_impl; [|exact Hall].
        intros z Hz. unfold descending in *. eapply before_trans; eauto.
    + constructor; [exact IH|].
      apply (Permutation_Forall (x := row :: rest)).
      * symmetry. apply insert_desc_perm.
      * constructor; [|exact Hall].
        now apply before_total.
Qed.

Lemma insertion_sort_sorted (l : list merged_row) :
  StronglySorted descending (insertion_sort l).
Proof.
  induction l as [|x rest IH]; simpl.
  - constructor.
  - now apply insert_desc_sorted.
Qed.

#[export] Instance insertion_sort_kind : SortKind :=
  {| sort_values := insertion_sort;
     sort_values_perm := insertion_sort_perm;
     sort_values_sorted := insertion_sort_sorted |}.

(* ------------------------------------------------------------------ *)
(** ** The error monad *)

Lemma bind_inr {A B : Type} (m : result A) (k : A -> result B) (b : B) :
  bind m k = inr b -> exists a, m = inr a /\ k a = inr b.
Proof.
  destruct m as [e|a]; simpl; [discriminate|].
  intros H. now exists a.
Qed.

Lemma try_except_inr {A : Type} (body : result A) (v : A) :
  try_except body = inr v <-> body = inr v.
Proof.
  destruct body as [e|a]; simpl; unfold raise, ret; split; congruence.
Qed.

Lemma mapM_inr {A B : Type} (f : A -> result B) (l : list A) (ys : list B) :
  mapM f l = inr ys <-> Forall2 (fun x y => f x = inr y) l ys.
Proof.
  revert ys. induction l as [|x rest IH]; intros ys; simpl.
  - unfold ret. split.
    + intros [= <-]. constructor.
    + intros H. inversion H. reflexivity.
  - split.
    + intros H.
      apply bind_inr in H as (y & Hy & H).
      apply bind_inr in H as (ys' & Hys & H).
      injection H as <-.
      constructor; [exact Hy|]. now apply IH.
    + intros H. inversion H as [|? y ? ys' Hy Hys]; subst.
      rewrite Hy. simpl. apply IH in Hys. rewrite Hys. reflexivity.
Qed.


(** The loop of Step 5 appends, row after row, what its body yields. *)
Lemma iterrows_inr (merged_rows : list merged_row)
  (acc out : list excess_respondent) :
  iterrows merged_rows acc = inr out <->
  exists parts,
    Forall2 (fun row part => excess_of_row row = inr part) merged_rows parts
    /\ out = acc ++ concat parts.
Proof.
  revert acc. induction merged_rows as [|row rest IH]; intros acc; simpl.
  - unfold ret. split.
    + intros [= <-]. exists []. split; [constructor|]. simpl.
      now rewrite app_nil_r.
    + intros (parts & HF & ->). inversion HF. simpl. now rewrite app_nil_r.
  - split.
    + intros H. apply bind_inr in H as (part & Hpart & H).
      apply IH in H as (parts & HF & ->).
      exists (part :: parts). split; [now constructor|].
      simpl. now rewrite app_assoc.
    + intros (parts & HF & ->).
      inversion HF as [|? part ? parts' Hpart HF']; subst.
      rewrite Hpart. simpl. apply IH. exists parts'. split; [exact HF'|].
      simpl. now rewrite app_assoc.
Qed.

Lemma Forall2_in_r {A B : Type} (R : A -> B -> Prop) (l : list A) (l' : list B)
  (y : B) :
  Forall2 R l l' -> In y l' -> exists x, In x l /\ R x y.
Proof.
  induction 1 as [|a b l l' Hab _ IH]; intros Hin; [destruct Hin|].
  destruct Hin as [<-|Hin].
  - exists a. split; [now left|exact Hab].
  - destruct (IH Hin) as (x & Hx & HR). exists x. split; [now right|exact HR].
Qed.

Lemma Forall2_in_l {A B : Type} (R : A -> B -> Prop) (l : list A) (l' : list B)
  (x : A) :
  Forall2 R l l' -> In x l -> exists y, In y l' /\ R x y.
Proof.
  induction 1 as [|a b l l' Hab _ IH]; intros Hin; [destruct Hin|].
  destruct Hin as [<-|Hin].
  - exists b. split; [now left|exact Hab].
  - destruct (IH Hin) as (y & Hy & HR). exists y. split; [now right|exact HR].
Qed.


(* ------------------------------------------------------------------ *)
(** ** The shape of [process_files] *)

Lemma reconcile_inr (d : data_frame) (u : universe_frame) (r : list string)
  (merged : frame merged_row) :
  reconcile d u r = inr merged <->
  missing_from (d_columns d) by_columns = []
  /\ mem "responseid" (d_columns d) = true
  /\ missing_from (u_columns u) (["Country"; "Industry"] ++ r) = []
  /\ columns merged = merged_columns
  /\ Forall2 (fun j m => calculate_row j = inr m) (joined_rows d u r) (rows merged).
Proof.
  unfold reconcile, groupby_agg, melt, by_columns.
  destruct (missing_from (d_columns d) _) as [|c cs];
    [|simpl; unfold key_error, raise; split; [discriminate|intros (H & _); discriminate]].
  destruct (mem "responseid" (d_columns d));
    [|simpl; unfold raise; split; [discriminate|intros (_ & H & _); discriminate]].
  destruct (missing_from (u_columns u) _) as [|c cs];
    [|simpl; unfold raise; split; [discriminate|intros (_ & _ & H & _); discriminate]].
  cbn [bind ret]. unfold calculate.
  cbn [merge rows columns].
  split.
  - intros H. apply bind_inr in H as (rs & Hrs & H).
    injection H as <-. apply mapM_inr in Hrs.
    repeat split; exact Hrs.
  - intros (_ & _ & _ & Hc & HF).
    apply mapM_inr in HF. unfold joined_rows in HF. rewrite HF.
    destruct merged as [cols rs]. simpl in Hc. subst cols. reflexivity.
Qed.

Lemma process_files_inr {kind : SortKind} (d : data_frame) (u : universe_frame)
  (r : list string) (ex : list excess_respondent) (ful : frame fulfillment_row) :
  process_files d u r = inr (ex, ful) <->
  exists merged parts,
    reconcile d u r = inr merged
    /\ Forall2 (fun row part => excess_of_row row = inr part) (rows merged) parts
    /\ ex = concat parts
    /\ ful = Frame fulfillment_columns
               (map display_row
                  (sort_values (map round_fulfillment
                                    (filter has_quota (rows merged))))).
Proof.
  unfold process_files. rewrite try_except_inr.
  split.
  - intros H. apply bind_inr in H as (merged & Hm & H).
    apply bind_inr in H as (ex' & Hex & H).
    apply bind_inr in H as (ful' & Hful & H).
    injection H as <- <-.
    apply iterrows_inr in Hex as (parts & HF & ->).
    exists merged, parts. repeat split; try assumption.
    apply reconcile_inr in Hm as (_ & _ & _ & Hc & _).
    unfold select_columns in Hful. cbn [columns rows] in Hful.
    rewrite Hc in Hful. simpl in Hful. now injection Hful as <-.
  - intros (merged & parts & Hm & HF & -> & ->).
    rewrite Hm. cbn [bind].
    assert (Hex : iterrows (rows merged) [] = inr (concat parts))
      by (apply iterrows_inr; now exists parts).
    rewrite Hex. cbn [bind].
    apply reconcile_inr in Hm as (_ & _ & _ & Hc & _).
    unfold select_columns. cbn [columns rows]. rewrite Hc. reflexivity.
Qed.

(** What Step 4 makes of a row. *)
Lemma calculate_row_inr (j : joined_row) (m : merged_row) :
  calculate_row j = inr m ->
  m_key m = j_key j /\ m_count m = j_count j
  /\ m_response_ids m = j_response_ids j
  /\ as_number (j_quota j) = inr (m_quota m)
  /\ m_excess m = clip_lower (Fin 0) (sub (of_int (j_count j)) (m_quota m))
  /\ m_fulfillment_percentage m =
       clip_upper (Fin 100) (mul (div (of_int (j_count j)) (m_quota m)) (Fin 100)).
Proof.
  unfold calculate_row. intros H.
  apply bind_inr in H as (q & Hq & H). injection H as <-. simpl.
  repeat split. exact Hq.
Qed.

Lemma as_number_inr (c : cell) (x : num) :
  as_number c = inr x -> c = Number x \/ (c = Blank /\ x = NaN).
Proof.
  destruct c as [y|s|]; simpl; unfold ret, raise; intros [= <-].
  - now left.
  - now right.
Qed.

(** Step 4 leaves an infinite excess exactly on a quota of [-inf]. *)
Lemma excess_infinite (count : Z) (x : num) :
  clip_lower (Fin 0) (sub (of_int count) x) = PInf <-> x = NInf.
Proof.
  unfold clip_lower, of_int.
  destruct x as [q| | | |]; simpl; try (split; congruence).
  - destruct (negb _); split; congruence.
  - destruct (negb _); split; congruence.
Qed.

(** The body of the loop raises on an infinite excess and on no other:
    a NaN never reaches [int]. *)
Lemma excess_of_row_returns (row : merged_row) :
  m_excess row <> PInf -> exists part, excess_of_row row = inr part.
Proof.
  unfold excess_of_row. intros H.
  destruct (m_excess row) as [q| | | |]; simpl; eauto.
  - destruct (negb _); simpl; eauto.
  - congruence.
Qed.


Lemma calculated_excess_infinite (j : joined_row) (m : merged_row) :
  calculate_row j = inr m -> (m_excess m = PInf <-> m_quota m = NInf).
Proof.
  intros H. apply calculate_row_inr in H as (_ & _ & _ & _ & He & _).
  rewrite He. apply excess_infinite.
Qed.


(** [process_files] returns as soon as Steps 1 to 4 do and no row of
    [merged_df] has a quota of [-inf]. *)
Lemma process_files_returns {kind : SortKind} (d : data_frame)
  (u : universe_frame) (r : list string) (merged : frame merged_row) :
  reconcile d u r = inr merged ->
  (forall row, In row (rows merged) -> m_quota row <> NInf) ->
  exists ex ful, process_files d u r = inr (ex, ful).
Proof.
  intros Hm Hfin.
  assert (Hparts : exists parts,
             Forall2 (fun row part => excess_of_row row = inr part)
                     (rows merged) parts).
  { pose proof Hm as H. apply reconcile_inr in H as (_ & _ & _ & _ & HF).
    induction HF as [|j m js ms Hjm _ IH].
    - exists []. constructor.
    - destruct IH as (parts & IH).
      { intros row Hrow. apply Hfin. now right. }
      destruct (excess_of_row_returns m) as (part & Hpart).
      { intros He. apply (calculated_excess_infinite _ _ Hjm) in He.
        apply (Hfin m); [now left|exact He]. }
      exists (part :: parts). now constructor. }
  destruct Hparts as (parts & Hparts).
  eexists _, _. apply process_files_inr.
  exists merged, parts. repeat split; eauto.
Qed.


(* ------------------------------------------------------------------ *)
(** ** [sorted] *)

Lemma insert_sorted_perm (x : Z) (l : list Z) :
  Permutation (insert_sorted x l) (x :: l).
Proof.
  induction l as [|y rest IH]; simpl.
  - apply Permutation_refl.
  - destruct (x <=? y).
    + apply Permutation_refl.
    + rewrite IH. apply perm_swap.
Qed.

Lemma sorted_perm (l : list Z) : Permutation (sorted l) l.
Proof.
  induction l as [|x rest IH]; simpl.
  - constructor.
  - rewrite insert_sorted_perm. now constructor.
Qed.

Lemma sorted_length (l : list Z) : length (sorted l) = length l.
Proof. apply Permutation_length, sorted_perm. Qed.

Lemma insert_sorted_ascending (x : Z) (l : list Z) :
  StronglySorted Z.le l -> StronglySorted Z.le (insert_sorted x l).
Proof.
  induction 1 as [|y rest Hs IH Hall]; simpl.
  - repeat constructor.
  - destruct (Z.leb_spec x y) as [Hle|Hgt].
    + constructor; [now constructor|].
      constructor; [exact Hle|].
      eapply Forall_impl; [|exact Hall]. intros z Hz. lia.
    + constructor; [exact IH|].
      apply (Permutation_Forall (x := x :: rest)).
      * symmetry. apply insert_sorted_perm.
      * constructor; [lia|exact Hall].
Qed.

Lemma sorted_ascending (l : list Z) : StronglySorted Z.le (sorted l).
Proof.
  induction l as [|x rest IH]; simpl.
  - constructor.
  - now apply insert_sorted_ascending.
Qed.

Lemma in_skipn {A : Type} (n : nat) (l : list A) (x : A) :
  In x (skipn n l) -> In x l.
Proof.
  intros H. rewrite <- (firstn_skipn n l). apply in_or_app. now right.
Qed.

(** In an ascending list nothing before a position exceeds what follows it. *)
Lemma ascending_split (l : list Z) (n : nat) :
  StronglySorted Z.le l ->
  forall a b, In a (firstn n l) -> In b (skipn n l) -> a <= b.
Proof.
  intros Hs. revert n. induction Hs as [|x rest Hs IH Hall]; intros n a b.
  - rewrite firstn_nil. intros [].
  - destruct n as [|n]; simpl.
    + intros [].
    + intros [<-|Ha] Hb.
      * rewrite Forall_forall in Hall. apply Hall.
        eapply in_skipn; exact Hb.
      * eapply IH; eauto.
Qed.

(* ------------------------------------------------------------------ *)
(** ** The order of the group keys *)

Lemma string_compare_refl (s : string) : String.compare s s = Eq.
Proof.
  pose proof (String.compare_antisym s s) as H.
  destruct (String.compare s s); simpl in H; congruence.
Qed.

Lemma string_compare_eq (s t : string) : String.compare s t = Eq <-> s = t.
Proof.
  split.
  - apply String.compare_eq_iff.
  - intros <-. apply string_compare_refl.
Qed.

Lemma string_compare_trans (s t v : string) :
  String.compare s t = Lt -> String.compare t v = Lt -> String.compare s v = Lt.
Proof.
  revert t v. induction s as [|a s IH]; intros [|b t] [|c v]; simpl;
    try congruence.
  unfold Ascii.compare.
  destruct (N.compare_spec (N_of_ascii a) (N_of_ascii b)) as [Hab|Hab|Hab];
    try discriminate;
    destruct (N.compare_spec (N_of_ascii b) (N_of_ascii c)) as [Hbc|Hbc|Hbc];
    try discriminate; intros H1 H2.
  - rewrite Hab, Hbc, N.compare_refl. eapply IH; eauto.
  - rewrite Hab. now apply N.compare_lt_iff in Hbc as ->.
  - rewrite <- Hbc. now apply N.compare_lt_iff in Hab as ->.
  - assert (Hac : (N_of_ascii a < N_of_ascii c)%N) by lia.
    now apply N.compare_lt_iff in Hac as ->.
Qed.

Lemma segment_compare_eq (a b : segment) : segment_compare a b = Eq <-> a = b.
Proof.
  destruct a as [[c1 i1] v1], b as [[c2 i2] v2]. simpl.
  split.
  - destruct (String.compare c1 c2) eqn:Hc; try discriminate.
    destruct (String.compare i1 i2) eqn:Hi; try discriminate.
    intros Hv.
    apply string_compare_eq in Hc, Hi, Hv. congruence.
  - intros [= -> -> ->]. now rewrite !string_compare_refl.
Qed.

Lemma segment_compare_antisym (a b : segment) :
  segment_compare a b = CompOpp (segment_compare b a).
Proof.
  destruct a as [[c1 i1] v1], b as [[c2 i2] v2]. simpl.
  rewrite (String.compare_antisym c2 c1), (String.compare_antisym i2 i1),
    (String.compare_antisym v2 v1).
  destruct (String.compare c1 c2), (String.compare i1 i2),
    (String.compare v1 v2); reflexivity.
Qed.

Lemma segment_compare_trans (a b c : segment) :
  segment_compare a b = Lt -> segment_compare b c = Lt ->
  segment_compare a c = Lt.
Proof.
  destruct a as [[c1 i1] v1], b as [[c2 i2] v2], c as [[c3 i3] v3]. simpl.
  destruct (String.compare c1 c2) eqn:H12; try discriminate;
    destruct (String.compare c2 c3) eqn:H23; try discriminate;
    try (apply string_compare_eq in H12; subst c2);
    try (apply string_compare_eq in H23; subst c3);
    try rewrite H12; try rewrite H23;
    try rewrite (string_compare_trans _ _ _ H12 H23);
    try rewrite string_compare_refl; try reflexivity.
  destruct (String.compare i1 i2) eqn:I12; try discriminate;
    destruct (String.compare i2 i3) eqn:I23; try discriminate;
    try (apply string_compare_eq in I12; subst i2);
    try (apply string_compare_eq in I23; subst i3);
    try rewrite I12; try rewrite I23;
    try rewrite (string_compare_trans _ _ _ I12 I23);
    try rewrite string_compare_refl; try reflexivity.
  apply string_compare_trans.
Qed.

(* ------------------------------------------------------------------ *)
(** ** [groupby]: one group per observed segment *)

Lemma segment_eqb_eq (a b : segment) : segment_eqb a b = true <-> a = b.
Proof.
  unfold segment_eqb. rewrite <- segment_compare_eq.
  destruct (segment_compare a b); split; congruence.
Qed.

Lemma segment_eqb_refl (a : segment) : segment_eqb a a = true.
Proof. now apply segment_eqb_eq. Qed.

Lemma add_to_group_keys (P : segment -> Prop) (k : segment) (id : Z)
  (groups : list (segment * list Z)) :
  P k -> Forall (fun g => P (fst g)) groups ->
  Forall (fun g => P (fst g)) (add_to_group k id groups).
Proof.
  intros Hk. induction 1 as [|[k' ids] rest Hk' Hrest IH]; simpl.
  - now repeat constructor.
  - destruct (segment_compare k k').
    + now constructor.
    + repeat constructor; assumption.
    + now constructor.
Qed.

Lemma add_to_group_ascending (k : segment) (id : Z)
  (groups : list (segment * list Z)) :
  keys_ascending groups -> keys_ascending (add_to_group k id groups).
Proof.
  induction 1 as [|[k' ids] rest Hs IH Hall]; simpl.
  - repeat constructor.
  - destruct (segment_compare k k') eqn:E.
    + now constructor.
    + constructor; [now constructor|].
      constructor; [exact E|].
      eapply Forall_impl; [|exact Hall].
      intros g Hg. unfold key_lt in *. simpl in *.
      eapply segment_compare_trans; eauto.
    + constructor; [exact IH|].
      apply (add_to_group_keys (fun x => segment_compare k' x = Lt));
        [|exact Hall].
      rewrite segment_compare_antisym, E. reflexivity.
Qed.

Lemma lookup_below (k : segment) (groups : list (segment * list Z)) :
  Forall (fun g => segment_compare k (fst g) = Lt) groups ->
  lookup k groups = None.
Proof.
  induction 1 as [|[k' ids] rest Hk' _ IH]; simpl; [reflexivity|].
  simpl in Hk'. unfold segment_eqb. now rewrite Hk'.
Qed.

Lemma add_to_group_lookup (k k1 : segment) (id : Z)
  (groups : list (segment * list Z)) :
  keys_ascending groups ->
  lookup k1 (add_to_group k id groups) =
  if segment_eqb k1 k
  then Some (match lookup k groups with
             | Some ids => ids ++ [id]
             | None => [id]
             end)
  else lookup k1 groups.
Proof.
  induction 1 as [|[k' ids] rest Hs IH Hall]; simpl.
  - destruct (segment_eqb k1 k); reflexivity.
  - destruct (segment_compare k k') eqn:E.
    + apply segment_compare_eq in E. subst k'. simpl.
      rewrite segment_eqb_refl.
      destruct (segment_eqb k1 k); reflexivity.
    + assert (Hkk : segment_eqb k k' = false)
        by (unfold segment_eqb; now rewrite E).
      simpl. rewrite Hkk.
      destruct (segment_eqb k1 k) eqn:E1; [|reflexivity].
      rewrite lookup_below; [reflexivity|].
      eapply Forall_impl; [|exact Hall].
      intros g Hg. unfold key_lt in Hg. simpl in Hg.
      eapply segment_compare_trans; eauto.
    + assert (Hkk : segment_eqb k k' = false)
        by (unfold segment_eqb; now rewrite E).
      simpl. rewrite Hkk.
      destruct (segment_eqb k1 k') eqn:E1.
      * apply segment_eqb_eq in E1. subst k1.
        unfold segment_eqb. rewrite segment_compare_antisym, E. reflexivity.
      * exact IH.
Qed.

Lemma groupby_snoc (rs : list respondent) (r : respondent) :
  groupby (rs ++ [r]) = add_row (groupby rs) r.
Proof. unfold groupby. now rewrite fold_left_app. Qed.

Lemma ids_of_snoc (k : segment) (rs : list respondent) (r : respondent) :
  ids_of k (rs ++ [r]) =
  ids_of k rs ++ (if in_segment k r then [responseid r] else []).
Proof.
  unfold ids_of. rewrite filter_app, map_app. simpl.
  now destruct (in_segment k r).
Qed.

Lemma groupby_ascending (rs : list respondent) : keys_ascending (groupby rs).
Proof.
  induction rs as [|r rs IH] using rev_ind.
  - constructor.
  - rewrite groupby_snoc. unfold add_row.
    destruct (segment_of r); [|exact IH].
    now apply add_to_group_ascending.
Qed.

Lemma groupby_lookup (rs : list respondent) (k : segment) :
  lookup k (groupby rs) =
  match ids_of k rs with
  | [] => None
  | ids => Some ids
  end.
Proof.
  induction rs as [|r rs IH] using rev_ind.
  - reflexivity.
  - rewrite groupby_snoc, ids_of_snoc. unfold add_row, in_segment.
    destruct (segment_of r) as [k'|].
    + rewrite add_to_group_lookup by apply groupby_ascending.
      destruct (segment_eqb k k') eqn:E.
      * apply segment_eqb_eq in E. subst k'. rewrite IH.
        destruct (ids_of k rs); reflexivity.
      * rewrite app_nil_r. exact IH.
    + rewrite app_nil_r. exact IH.
Qed.

Lemma lookup_in (k : segment) (ids : list Z) (groups : list (segment * list Z)) :
  keys_ascending groups ->
  (In (k, ids) groups <-> lookup k groups = Some ids).
Proof.
  induction 1 as [|[k' ids'] rest Hs IH Hall]; simpl.
  - split; [intros []|discriminate].
  - destruct (segment_eqb k k') eqn:E.
    + apply segment_eqb_eq in E. subst k'. split.
      * intros [[= ->]|Hin]; [reflexivity|].
        rewrite Forall_forall in Hall. apply Hall in Hin.
        unfold key_lt in Hin. simpl in Hin.
        pose proof (proj2 (segment_compare_eq k k) eq_refl). congruence.
      * intros [= ->]. now left.
    + rewrite <- IH. split.
      * intros [[= <- <-]|Hin]; [|exact Hin].
        rewrite segment_eqb_refl in E. discriminate.
      * intros Hin. now right.
Qed.

(** A group exists for exactly the segments that have a respondent, and it
    holds the ids of all of them. *)
Lemma groupby_spec (rs : list respondent) (k : segment) (ids : list Z) :
  In (k, ids) (groupby rs) <-> ids = ids_of k rs /\ ids <> [].
Proof.
  rewrite lookup_in by apply groupby_ascending.
  rewrite groupby_lookup.
  destruct (ids_of k rs) as [|x l]; split.
  - discriminate.
  - intros [-> H]. congruence.
  - intros [= <-]. split; [reflexivity|discriminate].
  - intros [-> _]. reflexivity.
Qed.

(** A respondent row with a missing key is in no group. *)
Lemma groupby_skips (l1 l2 : list respondent) (r : respondent) :
  segment_of r = None -> groupby (l1 ++ r :: l2) = groupby (l1 ++ l2).
Proof.
  intros H. unfold groupby. rewrite !fold_left_app. simpl.
  unfold add_row at 2. now rewrite H.
Qed.

(* ------------------------------------------------------------------ *)
(** ** The rows of [merged_df] *)

(** A left row of the merge is a group of the data file. *)
Lemma joined_rows_origin (d : data_frame) (u : universe_frame)
  (r : list string) (j : joined_row) :
  In j (joined_rows d u r) ->
  let ids := ids_of (j_key j) (d_rows d) in
  ids <> []
  /\ j_count j = Z.of_nat (length ids)
  /\ j_response_ids j = sorted ids
  /\ ((j_quota j = Blank
       /\ forall m, In m (unpivot u r) -> same_segment (j_key j) m = false)
      \/ exists m, In m (unpivot u r)
                   /\ same_segment (j_key j) m = true
                   /\ j_quota j = l_quota m).
Proof.
  unfold joined_rows. intros H.
  apply in_flat_map in H as (g & Hg & Hj).
  apply in_map_iff in Hg as ([k ids'] & <- & Hk).
  apply groupby_spec in Hk as (-> & Hne).
  unfold merge_row in Hj. cbn [agg fst snd g_key] in Hj.
  destruct (filter (same_segment k) (unpivot u r)) as [|m ms] eqn:Hf.
  - destruct Hj as [<-|[]]. cbn.
    repeat split; try assumption.
    left. split; [reflexivity|].
    intros m Hm. destruct (same_segment k m) eqn:E; [|reflexivity].
    assert (Hin : In m (filter (same_segment k) (unpivot u r)))
      by (apply filter_In; now split).
    rewrite Hf in Hin. destruct Hin.
  - apply in_map_iff in Hj as (m' & <- & Hm'). cbn.
    repeat split; try assumption.
    right. exists m'. rewrite <- Hf in Hm'. apply filter_In in Hm'.
    destruct Hm' as [Hin Hsame]. now repeat split.
Qed.

(** Every row of [merged_df]: its ids are the sorted ids of the respondents
    of its segment, its count is their number, and its quota is a number
    or a NaN. *)
Lemma merged_row_facts (d : data_frame) (u : universe_frame) (r : list string)
  (merged : frame merged_row) (row : merged_row) :
  reconcile d u r = inr merged -> In row (rows merged) ->
  m_response_ids row = sorted (ids_of (m_key row) (d_rows d))
  /\ m_count row = Z.of_nat (length (m_response_ids row))
  /\ 1 <= m_count row
  /\ m_excess row = clip_lower (Fin 0) (sub (of_int (m_count row)) (m_quota row))
  /\ m_fulfillment_percentage row =
       clip_upper (Fin 100)
         (mul (div (of_int (m_count row)) (m_quota row)) (Fin 100))
  /\ ((m_quota row = NaN)
      \/ exists m, In m (unpivot u r)
                   /\ same_segment (m_key row) m = true
                   /\ l_quota m = Number (m_quota row)).
Proof.
  intros Hm Hin.
  apply reconcile_inr in Hm as (_ & _ & _ & _ & HF).
  destruct (Forall2_in_r _ _ _ _ HF Hin) as (j & Hj & Hcalc).
  apply calculate_row_inr in Hcalc as (Hk & Hc & Hids & Hq & He & Hp).
  apply joined_rows_origin in Hj as (Hne & Hcount & Hsorted & Hquota).
  rewrite Hk, Hids.
  split; [exact Hsorted|].
  split; [now rewrite Hc, Hsorted, sorted_length|].
  split.
  { rewrite Hc, Hcount. destruct (ids_of (j_key j) (d_rows d)); [congruence|].
    simpl length. lia. }
  split; [now rewrite Hc|].
  split; [now rewrite Hc|].
  apply as_number_inr in Hq as [Hjq|(_ & Hmq)]; [|now left].
  destruct Hquota as [(Hb & _)|(m & Hm & Hs & Hjm)]; [congruence|].
  right. exists m. repeat split; try assumption. congruence.
Qed.

(* ------------------------------------------------------------------ *)
(** ** What the validators establish *)

Lemma mem_in (s : string) (l : list string) : mem s l = true <-> In s l.
Proof.
  unfold mem. rewrite existsb_exists. split.
  - intros (x & Hx & E). apply String.eqb_eq in E. now subst.
  - intros H. exists s. split; [exact H|apply String.eqb_refl].
Qed.

Lemma mem_not_in (s : string) (l : list string) : mem s l = false <-> ~ In s l.
Proof.
  rewrite <- mem_in. destruct (mem s l); split; congruence.
Qed.

Lemma missing_from_nil (cols required : list string) :
  missing_from cols required = [] <-> incl required cols.
Proof.
  unfold missing_from, incl. induction required as [|c rest IH]; simpl.
  - split; [intros _ a []|reflexivity].
  - destruct (mem c cols) eqn:E; simpl.
    + rewrite IH. apply mem_in in E. split.
      * intros H a [<-|Ha]; auto.
      * intros H a Ha. apply H. now right.
    + split; [discriminate|].
      intros H. apply mem_not_in in E. destruct E. apply H. now left.
Qed.

Lemma for_each_inr {A : Type} (body : A -> result unit) (l : list A) (v : unit) :
  for_each body l = inr v <-> forall x, In x l -> body x = inr tt.
Proof.
  destruct v. induction l as [|x rest IH]; simpl.
  - unfold ret. split; [intros _ x []|reflexivity].
  - split.
    + intros H. apply bind_inr in H as ([] & Hx & H).
      intros y [<-|Hy]; [exact Hx|]. now apply IH.
    + intros H. rewrite (H x (or_introl eq_refl)). simpl.
      apply IH. intros y Hy. apply H. now right.
Qed.

Lemma validate_universe_file_inr (u : universe_frame) (r : list string) :
  validate_universe_file u = inr r <->
  incl ["Industry"; "Country"] (u_columns u)
  /\ r = revenue_columns (u_columns u)
  /\ r <> []
  /\ forall col, In col r -> is_numeric_dtype (column u col) = true.
Proof.
  unfold validate_universe_file. fold (revenue_columns (u_columns u)).
  rewrite <- missing_from_nil.
  destruct (missing_from (u_columns u) ["Industry"; "Country"]) as [|c cs];
    [|simpl; unfold raise; split; [discriminate|intros (H & _); discriminate]].
  cbn [nonempty].
  destruct (revenue_columns (u_columns u)) as [|c cs] eqn:Hr.
  { simpl. unfold raise. split; [discriminate|].
    intros (_ & -> & H & _). congruence. }
  cbn [nonempty negb]. split.
  - intros H. apply bind_inr in H as ([] & Hloop & H). injection H as <-.
    repeat split; try discriminate.
    intros col Hcol.
    rewrite for_each_inr in Hloop. specialize (Hloop col Hcol).
    destruct (is_numeric_dtype (column u col)); [reflexivity|discriminate].
  - intros (_ & -> & _ & Hnum).
    assert (Hloop : for_each
              (fun col =>
                 if negb (is_numeric_dtype (column u col))
                 then raise ValueError
                        ("Universe file column '" ++ col
                           ++ "' must contain numeric values.")
                 else ret tt) (c :: cs) = inr tt).
    { apply for_each_inr. intros col Hcol. now rewrite (Hnum col Hcol). }
    rewrite Hloop. reflexivity.
Qed.



Lemma numeric_column_has_no_text (values : list cell) (c : cell) :
  is_numeric_dtype values = true -> In c values -> is_text c = false.
Proof.
  unfold is_numeric_dtype. intros H Hc.
  apply andb_true_iff in H as [_ H].
  rewrite forallb_forall in H. specialize (H c Hc).
  now destruct (is_text c).
Qed.

Lemma unpivot_in (u : universe_frame) (r : list string) (m : melted_row) :
  In m (unpivot u r) <->
  exists col row, In col r /\ In row (u_rows u) /\ m = melted col row.
Proof.
  unfold unpivot. rewrite in_flat_map. split.
  - intros (col & Hcol & Hm). apply in_map_iff in Hm as (row & <- & Hrow).
    now exists col, row.
  - intros (col & row & Hcol & Hrow & ->). exists col. split; [exact Hcol|].
    now apply in_map.
Qed.


(* ------------------------------------------------------------------ *)
(** ** Where the rows of the two outputs come from *)

Lemma report_row_fields (row : merged_row) :
  fulfillment_segment (report_row row) = m_key row
  /\ f_Count (report_row row) = m_count row
  /\ f_Quota (report_row row) = m_quota row
  /\ f_Fulfillment_Percentage (report_row row)
     = round2 (m_fulfillment_percentage row).
Proof.
  unfold report_row, display_row, round_fulfillment, fulfillment_segment.
  cbn [m_key]. destruct (m_key row) as [[c i] v]. simpl. tauto.
Qed.

(** The fulfillment table holds one row for each row of [merged_df] that has
    a quota, and nothing else. *)
Lemma fulfillment_rows_perm {kind : SortKind} (l : list merged_row) :
  Permutation
    (map display_row (sort_values (map round_fulfillment (filter has_quota l))))
    (map report_row (filter has_quota l)).
Proof.
  unfold report_row. rewrite <- (map_map round_fulfillment display_row).
  apply Permutation_map, sort_values_perm.
Qed.

Lemma fulfillment_rows_in {kind : SortKind} (l : list merged_row)
  (f : fulfillment_row) :
  In f (map display_row
          (sort_values (map round_fulfillment (filter has_quota l))))
  <-> exists row, In row l /\ has_quota row = true /\ f = report_row row.
Proof.
  split.
  - intros H. apply (Permutation_in _ (fulfillment_rows_perm l)) in H.
    apply in_map_iff in H as (row & <- & Hrow).
    apply filter_In in Hrow as [Hin Hq]. now exists row.
  - intros (row & Hin & Hq & ->).
    apply (Permutation_in _ (Permutation_sym (fulfillment_rows_perm l))).
    apply in_map. apply filter_In. now split.
Qed.

Lemma excess_of_row_in (row : merged_row) (part : list excess_respondent)
  (e : excess_respondent) :
  excess_of_row row = inr part -> In e part ->
  gtb (m_excess row) (Fin 0) = true
  /\ exists id, In id (m_response_ids row) /\ e = excess_entry row id.
Proof.
  unfold excess_of_row. destruct (gtb (m_excess row) (Fin 0)).
  - intros H. apply bind_inr in H as (n & _ & H). injection H as <-.
    intros He. apply in_map_iff in He as (id & <- & Hid).
    split; [reflexivity|]. exists id. split; [|reflexivity].
    unfold slice_from in Hid. destruct (_ <? _); eapply in_skipn; exact Hid.
  - unfold ret. intros [= <-] [].
Qed.

Lemma concat_parts_in {A B : Type} (R : A -> list B -> Prop) (l : list A)
  (parts : list (list B)) (e : B) :
  Forall2 R l parts -> In e (concat parts) ->
  exists x part, In x l /\ R x part /\ In e part.
Proof.
  induction 1 as [|a p l parts Hap _ IH]; simpl; [intros []|].
  intros H. apply in_app_or in H as [H|H].
  - exists a, p. repeat split; auto.
  - destruct (IH H) as (x & part & Hx & HR & He).
    exists x, part. repeat split; auto.
Qed.

(** A row of [merged_df] without a quota: its excess is a NaN, the loop of
    Step 5 passes over it, and Step 6 filters it out. *)
Lemma null_quota_row (row : merged_row) :
  m_quota row = NaN ->
  m_excess row = clip_lower (Fin 0) (sub (of_int (m_count row)) (m_quota row)) ->
  m_excess row = NaN /\ excess_of_row row = inr [] /\ has_quota row = false.
Proof.
  intros Hq He. rewrite Hq in He. simpl in He.
  unfold excess_of_row, has_quota. rewrite He, Hq. simpl. tauto.
Qed.
(* ------------------------------------------------------------------ *)
(** ** The fulfillment percentage *)

Lemma round_half_even_le (x : Q) (n : Z) :
  (x <= inject_Z n)%Q -> round_half_even x <= n.
Proof.
  intros Hx. unfold round_half_even.
  assert (Hf : Qfloor x <= n).
  { rewrite <- (Qfloor_Z n). now apply Qfloor_resp_le. }
  destruct (Z.eq_dec (Qfloor x) n) as [E|E].
  - assert (Hlt : (x - inject_Z (Qfloor x) < 1 # 2)%Q).
    { rewrite E. apply Qle_lt_trans with 0%Q; [|reflexivity].
      apply (Qplus_le_l _ _ (inject_Z n)). ring_simplify. exact Hx. }
    rewrite (proj1 (Qlt_alt _ _) Hlt). lia.
  - destruct (_ ?= _)%Q; [destruct (Z.even _)| |]; lia.
Qed.

Lemma round_half_even_nonneg (x : Q) : (0 <= x)%Q -> 0 <= round_half_even x.
Proof.
  intros Hx. unfold round_half_even.
  assert (Hf : 0 <= Qfloor x).
  { change 0 with (Qfloor 0). now apply Qfloor_resp_le. }
  destruct (_ ?= _)%Q; [destruct (Z.even _)| |]; lia.
Qed.

Lemma Qsign_eq (q : Q) : Qsign q = Eq <-> (q == 0)%Q.
Proof.
  unfold Qsign, Qeq. simpl. rewrite Z.compare_eq_iff. lia.
Qed.

Lemma Qsign_gt (q : Q) : Qsign q = Gt <-> (0 < q)%Q.
Proof.
  unfold Qsign, Qlt. simpl. rewrite Z.compare_gt_iff. lia.
Qed.

Lemma Qsign_count (count : Z) : 1 <= count -> Qsign (inject_Z count) = Gt.
Proof.
  intros H. unfold Qsign. simpl. apply Z.compare_gt_iff. lia.
Qed.

Lemma signbit_nonneg (y : Q) : (0 <= y)%Q -> signbit (Fin y) = false.
Proof.
  unfold signbit, Qsign, Qle. simpl. intros H.
  destruct (Z.compare_spec (Qnum y) 0); try reflexivity. lia.
Qed.

Lemma div_finite (a b : Q) :
  Qsign a <> Eq -> Qsign b <> Eq -> div (Fin a) (Fin b) = Fin (Qred (a / b)).
Proof.
  intros Ha Hb. unfold div, isnan, iszero. cbn [notna negb orb isinf to_Q].
  destruct (Qsign a), (Qsign b); congruence.
Qed.

Lemma mul_finite (a b : Q) :
  Qsign a <> Eq -> Qsign b <> Eq -> mul (Fin a) (Fin b) = Fin (Qred (a * b)).
Proof.
  intros Ha Hb. unfold mul, isnan, iszero. cbn [notna negb orb isinf to_Q].
  destruct (Qsign a), (Qsign b); try congruence; reflexivity.
Qed.

Lemma round2_nonneg (y : Q) :
  (0 <= y)%Q ->
  round2 (Fin y) = Fin (Qred (inject_Z (round_half_even (y * 100)) / 100)).
Proof.
  intros H. unfold round2. rewrite (signbit_nonneg y H).
  now rewrite andb_false_r.
Qed.

Lemma rounded_at_most_100 (y : Q) :
  (y <= 100)%Q ->
  (Qred (inject_Z (round_half_even (y * 100)) / 100) <= 100)%Q.
Proof.
  intros Hy. rewrite Qred_correct.
  assert (Hr : round_half_even (y * 100) <= 10000).
  { apply round_half_even_le.
    apply Qle_trans with (100 * 100)%Q; [|discriminate].
    apply Qmult_le_compat_r; [exact Hy|discriminate]. }
  apply Qle_shift_div_r; [reflexivity|].
  unfold Qle. simpl. lia.
Qed.

(** Rounding keeps a percentage that is no NaN and not above 100 so; it
    makes no [+inf]. *)
Lemma round2_at_most_100 (v : num) :
  v <> NaN -> gtb v (Fin 100) = false ->
  round2 v <> NaN /\ round2 v <> PInf /\ gtb (round2 v) (Fin 100) = false.
Proof.
  destruct v as [y| | | |]; simpl; try (intros; repeat split; congruence).
  intros _ H. apply negb_false_iff, Qle_bool_iff in H.
  destruct (_ && _); simpl; [repeat split; congruence|].
  split; [congruence|]. split; [congruence|].
  apply negb_false_iff, Qle_bool_iff. now apply rounded_at_most_100.
Qed.

Lemma clip_upper_at_most_100 (v : num) :
  v <> NaN ->
  clip_upper (Fin 100) v <> NaN /\ gtb (clip_upper (Fin 100) v) (Fin 100) = false.
Proof.
  intros H. unfold clip_upper. destruct (gtb v (Fin 100)) eqn:E.
  - split; [congruence|reflexivity].
  - now split.
Qed.

Lemma iszero_count (count : Z) : 1 <= count -> iszero (of_int count) = false.
Proof.
  intros Hc. unfold iszero, of_int. now rewrite (Qsign_count count Hc).
Qed.

Lemma signbit_count (count : Z) : 1 <= count -> signbit (of_int count) = false.
Proof.
  intros Hc. unfold signbit, of_int. now rewrite (Qsign_count count Hc).
Qed.

Ltac split_ifs :=
  repeat match goal with
         | |- context [if ?b then _ else _] => destruct b
         end.

(** With at least one respondent and a quota that is no NaN, the
    percentage is no NaN either. *)
Lemma percentage_notna (count : Z) (x : num) :
  1 <= count -> x <> NaN ->
  mul (div (of_int count) x) (Fin 100) <> NaN.
Proof.
  intros Hc Hx.
  assert (Hdiv : div (of_int count) x <> NaN).
  { unfold div. rewrite (iszero_count count Hc).
    change (isnan (of_int count)) with false.
    change (isinf (of_int count)) with false.
    destruct x as [q| | | |]; cbn [isnan notna negb orb isinf];
      try congruence; unfold inf, zero; split_ifs; discriminate. }
  revert Hdiv. generalize (div (of_int count) x). intros v Hv.
  unfold mul. change (iszero (Fin 100)) with false.
  change (isinf (Fin 100)) with false. change (isnan (Fin 100)) with false.
  destruct v as [a| | | |]; cbn [isnan notna negb orb isinf iszero];
    try congruence; unfold inf, zero; split_ifs; discriminate.
Qed.

(** What the fulfillment table can hold as a percentage: no NaN, no
    [+inf], nothing above 100. *)
Lemma fulfillment_reported (count : Z) (x : num) :
  1 <= count -> x <> NaN ->
  let p := round2 (clip_upper (Fin 100)
                     (mul (div (of_int count) x) (Fin 100))) in
  p <> NaN /\ p <> PInf /\ gtb p (Fin 100) = false.
Proof.
  intros Hc Hx p. subst p.
  destruct (clip_upper_at_most_100 _ (percentage_notna count x Hc Hx))
    as (H1 & H2).
  now apply round2_at_most_100.
Qed.

(** A quota of zero: [count / 0] is [+inf], which [clip] caps at 100. *)
Lemma fulfillment_of_zero_quota (count : Z) (q : Q) :
  1 <= count -> (q == 0)%Q ->
  round2 (clip_upper (Fin 100) (mul (div (of_int count) (Fin q)) (Fin 100)))
  = Fin 100.
Proof.
  intros Hc Hq. unfold div.
  rewrite (iszero_count count Hc), (signbit_count count Hc).
  unfold iszero at 1, signbit. rewrite (proj2 (Qsign_eq q) Hq).
  reflexivity.
Qed.

(** A quota of [-0.0]: [count / -0.0] is [-inf], which [clip(upper=100)]
    leaves. *)
Lemma fulfillment_of_negative_zero_quota (count : Z) :
  1 <= count ->
  round2 (clip_upper (Fin 100) (mul (div (of_int count) NZero) (Fin 100)))
  = NInf.
Proof.
  intros Hc. unfold div.
  rewrite (iszero_count count Hc), (signbit_count count Hc).
  reflexivity.
Qed.

(** The percentage of a segment with a positive quota. *)
Lemma fulfillment_with_positive_quota (count : Z) (q : Q) :
  1 <= count -> (0 < q)%Q ->
  exists p,
    round2 (clip_upper (Fin 100)
              (mul (div (of_int count) (Fin q)) (Fin 100))) = Fin p
    /\ (0 <= p)%Q /\ (p <= 100)%Q
    /\ ((q <= inject_Z count)%Q -> p = 100%Q).
Proof.
  intros Hc Hq. unfold of_int.
  pose proof (Qsign_count count Hc) as Hsc.
  pose proof (proj2 (Qsign_gt q) Hq) as Hsq.
  assert (Hratio : (0 < inject_Z count / q)%Q).
  { apply Qlt_shift_div_l; [exact Hq|]. rewrite Qmult_0_l.
    now apply Qsign_gt. }
  rewrite div_finite by congruence.
  rewrite mul_finite;
    [|rewrite (proj2 (Qsign_gt _)); [discriminate|now rewrite Qred_correct]
     |discriminate].
  set (x := Qred (Qred (inject_Z count / q) * 100)).
  assert (Hx : (x == inject_Z count / q * 100)%Q).
  { unfold x. now rewrite !Qred_correct. }
  assert (Hx0 : (0 <= x)%Q).
  { rewrite Hx. apply Qmult_le_0_compat; [|discriminate].
    now apply Qlt_le_weak. }
  unfold clip_upper. cbn [gtb to_Q].
  destruct (Qle_bool x 100) eqn:E; cbn [negb].
  - apply Qle_bool_iff in E. rewrite (round2_nonneg x Hx0).
    eexists. split; [reflexivity|]. split; [|split].
    + rewrite Qred_correct. apply Qle_shift_div_l; [reflexivity|].
      rewrite Qmult_0_l. change 0%Q with (inject_Z 0). rewrite <- Zle_Qle.
      apply round_half_even_nonneg.
      apply Qmult_le_0_compat; [exact Hx0|discriminate].
    + now apply rounded_at_most_100.
    + intros Hqc.
      assert (H100 : (x == 100)%Q).
      { apply Qle_antisym; [exact E|]. rewrite Hx.
        setoid_replace 100%Q with (1 * 100)%Q at 1 by ring.
        apply Qmult_le_compat_r; [|discriminate].
        apply Qle_shift_div_l; [exact Hq|]. now rewrite Qmult_1_l. }
      assert (Hx100 : x = 100%Q).
      { unfold x.
        rewrite (Qred_complete (Qred (inject_Z count / q) * 100) 100);
          [reflexivity|].
        rewrite <- (Qred_correct (Qred (inject_Z count / q) * 100)).
        exact H100. }
      rewrite Hx100. vm_compute. reflexivity.
  - exists 100%Q. split; [vm_compute; reflexivity|].
    repeat split; [discriminate|apply Qle_refl].
Qed.

(* ------------------------------------------------------------------ *)
(** ** Scenario A *)

Lemma sort_values_singleton {kind : SortKind} (row : merged_row) :
  sort_values [row] = [row].
Proof.
  apply Permutation_length_1_inv. symmetry. apply sort_values_perm.
Qed.

(** C3. On the three respondents 1, 2, 3 of segment (USA, Tech, 1B+) and the
    quota table with the single row (USA, Tech) whose column 1B+ holds 2,
    [process_files] returns exactly one excess row, for respondent 3 with
    Quota=2, Count=3, Excess=1, and exactly one fulfillment row
    (USA, Tech, 1B+) with Count=3, Quota=2 and fulfillment percentage 100. *)
Theorem scenario_A_outputs {kind : SortKind} :
  process_files scenario_A_data scenario_A_universe ["1B+"] =
  inr ([{| e_Country := "USA"; e_Industry := "Tech"; e_Revenue_Range := "1B+";
           e_Quota := Fin 2; e_Count := 3; e_Excess := Fin 1;
           e_Response_ID := 3 |}],
       Frame ["Country"; "Industry"; "Revenue Range"; "Count"; "Quota";
              "Fulfillment Percentage (%)"]
             [{| f_Country := "USA"; f_Industry := "Tech";
                 f_Revenue_Range := "1B+"; f_Count := 3; f_Quota := Fin 2;
                 f_Fulfillment_Percentage := Fin 100 |}]).
Proof.
  unfold process_files.
  replace (reconcile scenario_A_data scenario_A_universe ["1B+"])
    with (@inr exn _
            (Frame ["Country"; "Industry"; "Revenue Range"; "count";
                    "response_ids"; "quota"; "excess"; "fulfillment_percentage"]
                   [{| m_key := ("USA", "Tech", "1B+"); m_count := 3;
                       m_response_ids := [1; 2; 3]; m_quota := Fin 2;
                       m_excess := Fin 1;
                       m_fulfillment_percentage := Fin 100 |}]))
    by (vm_compute; reflexivity).
  cbn [bind rows columns iterrows].
  cbn [filter m_quota notna map round_fulfillment].
  rewrite sort_values_singleton.
  vm_compute. reflexivity.
Qed.

(* ------------------------------------------------------------------ *)
(** ** Excess respondents (Step 5) *)

Lemma Forall2_impl_in {A B : Type} (R S : A -> B -> Prop) (l : list A)
  (l' : list B) :
  (forall x y, In x l -> R x y -> S x y) -> Forall2 R l l' -> Forall2 S l l'.
Proof.
  intros H HF. induction HF as [|a b l l' Hab _ IH]; constructor.
  - apply H; [now left|exact Hab].
  - apply IH. intros x y Hx. apply H. now right.
Qed.

Lemma int_at_least_one (x : num) (k : Z) :
  int x = inr k -> 1 <= k -> gtb x (Fin 0) = true.
Proof.
  destruct x as [q| | | |]; simpl; unfold ret, raise; try discriminate;
    [|intros [= <-] Hk; lia].
  intros [= <-] Hk. destruct q as [n den]. simpl in Hk.
  unfold Qle_bool. simpl. rewrite Z.mul_1_r.
  destruct (Z.leb_spec n 0) as [Hn|Hn]; [|reflexivity].
  exfalso.
  assert (Hq : Z.quot n (Z.pos den) <= 0).
  { replace n with (- (- n)) by lia. rewrite Z.quot_opp_l by lia.
    assert (0 <= Z.quot (- n) (Z.pos den)) by (apply Z.quot_pos; lia). lia. }
  lia.
Qed.

(** The body of the loop on a row whose excess has integer part [k], with
    [1 <= k <= count]: the entries of the last [k] ids. *)
Lemma excess_of_row_trailing (row : merged_row) (k : Z)
  (part : list excess_respondent) :
  excess_of_row row = inr part ->
  int (m_excess row) = inr k -> 1 <= k <= m_count row ->
  m_count row = Z.of_nat (length (m_response_ids row)) ->
  part = map (excess_entry row)
             (skipn (length (m_response_ids row) - Z.to_nat k)
                    (m_response_ids row)).
Proof.
  unfold excess_of_row. intros Hpart Hint Hk Hcount.
  rewrite (int_at_least_one _ _ Hint) in Hpart by lia.
  rewrite Hint in Hpart. cbn [bind] in Hpart. injection Hpart as <-.
  unfold slice_from.
  destruct (Z.ltb_spec (- k) 0) as [_|Hge]; [|lia].
  f_equal. f_equal. lia.
Qed.

Lemma excess_entry_fields (row : merged_row) (id : Z) :
  (e_Country (excess_entry row id), e_Industry (excess_entry row id),
   e_Revenue_Range (excess_entry row id)) = m_key row
  /\ e_Quota (excess_entry row id) = m_quota row
  /\ e_Count (excess_entry row id) = m_count row
  /\ e_Excess (excess_entry row id) = m_excess row
  /\ e_Response_ID (excess_entry row id) = id.
Proof.
  unfold excess_entry. destruct (m_key row) as [[c i] v]. simpl. tauto.
Qed.

Lemma excess_entry_ids (row : merged_row) (ids : list Z) :
  map e_Response_ID (map (excess_entry row) ids) = ids.
Proof.
  rewrite map_map. rewrite <- (map_id ids) at 2. apply map_ext.
  intros id. apply excess_entry_fields.
Qed.

(** With a quota that is not negative the integer part of the excess is at
    most the count. *)
Lemma excess_within_count (count : Z) (q : Q) (k : Z) :
  0 <= count -> (0 <= q)%Q ->
  int (clip_lower (Fin 0) (sub (of_int count) (Fin q))) = inr k ->
  k <= count.
Proof.
  intros Hc Hq. unfold clip_lower, sub, of_int.
  set (x := Qred (inject_Z count - q)).
  assert (Hx : (x <= inject_Z count)%Q).
  { unfold x. rewrite Qred_correct.
    apply (Qplus_le_l _ _ q). ring_simplify.
    rewrite <- (Qplus_0_r (inject_Z count)) at 1.
    apply Qplus_le_r. exact Hq. }
  clearbody x. destruct x as [n den].
  cbn [gtb to_Q]. destruct (Qle_bool 0 (n # den)) eqn:E; cbn [negb int]; unfold ret.
  - intros [= <-]. apply Qle_bool_iff in E.
    assert (Hn : 0 <= n).
    { unfold Qle in E. simpl in E. lia. }
    cbn [Qnum Qden]. rewrite Z.quot_div_nonneg by lia.
    change (Qfloor (n # den) <= count).
    rewrite <- (Qfloor_Z count). now apply Qfloor_resp_le.
  - intros [= <-]. simpl. exact Hc.
Qed.

(** C1, as the code has it. Take validated tables on which Steps 1 to 4
    return [merged_df]. For a segment (a row of [merged_df]) whose excess
    has integer part [k] with [1 <= k <= count], the body of the loop of
    Step 5 returns exactly [k] rows; their ids are the last [k] of the
    segment's [response_ids], which is the ascending sort of the ids of
    the respondents of the segment, so that no other id of the segment
    exceeds any of them; and each row carries the segment's Country,
    Industry, Revenue Range, Quota, Count and Excess. The bound
    [k <= count] holds whenever the quota is a number that is not
    negative. [process_files] returns as soon as no row has a quota of
    [-inf], and whenever it returns, its excess rows are those that the
    body of the loop returns on the rows of [merged_df], in order. *)
Theorem excess_rows_are_trailing_ids {kind : SortKind} (d : data_frame)
  (u : universe_frame) (r : list string) (merged : frame merged_row) :
  validate_universe_file u = inr r -> validate_data_file d r = inr tt ->
  reconcile d u r = inr merged ->
  (forall row, In row (rows merged) ->
     (forall q k, m_quota row = Fin q -> (0 <= q)%Q ->
                  int (m_excess row) = inr k -> k <= m_count row)
     /\ forall k, int (m_excess row) = inr k -> 1 <= k <= m_count row ->
         exists part,
           let ids := m_response_ids row in
           let cut := (length ids - Z.to_nat k)%nat in
           excess_of_row row = inr part
           /\ ids = sorted (ids_of (m_key row) (d_rows d))
           /\ StronglySorted Z.le ids
           /\ length part = Z.to_nat k
           /\ map e_Response_ID part = skipn cut ids
           /\ (forall a b,
                  In a (firstn cut ids) -> In b (map e_Response_ID part) ->
                  a <= b)
           /\ forall e, In e part ->
                (e_Country e, e_Industry e, e_Revenue_Range e) = m_key row
                /\ e_Quota e = m_quota row
                /\ e_Count e = m_count row
                /\ e_Excess e = m_excess row)
  /\ ((forall row, In row (rows merged) -> m_quota row <> NInf) ->
      exists ex ful, process_files d u r = inr (ex, ful))
  /\ forall ex ful,
       process_files d u r = inr (ex, ful) ->
       exists parts,
         ex = concat parts
         /\ Forall2 (fun row part => excess_of_row row = inr part)
                    (rows merged) parts.
Proof.
  intros Hu Hd Hm. split; [|split].
  - intros row Hrow.
    destruct (merged_row_facts d u r merged row Hm Hrow)
      as (Hids & Hcount & Hpos & Hexc & _).
    split.
    { intros q k Hq Hq0 Hint. rewrite Hexc, Hq in Hint.
      eapply excess_within_count; eauto. lia. }
    intros k Hint Hk.
    destruct (excess_of_row_returns row) as (part & Hpart).
    { intros He. rewrite He in Hint. discriminate. }
    exists part. cbv zeta. split; [exact Hpart|].
    pose proof (excess_of_row_trailing row k part Hpart Hint Hk Hcount) as ->.
    assert (Hs : StronglySorted Z.le (m_response_ids row))
      by (rewrite Hids; apply sorted_ascending).
    rewrite excess_entry_ids.
    split; [exact Hids|]. split; [exact Hs|].
    split; [rewrite length_map, length_skipn; lia|].
    split; [reflexivity|].
    split; [intros a b; now apply ascending_split|].
    intros e He. apply in_map_iff in He as (id & <- & _).
    destruct (excess_entry_fields row id) as (H1 & H2 & H3 & H4 & _).
    now repeat split.
  - now apply process_files_returns.
  - intros ex ful Hp.
    apply process_files_inr in Hp as (merged' & parts & Hm' & HF & Hex & _).
    assert (merged' = merged) by congruence. subst merged'.
    now exists parts.
Qed.

Lemma excess_rows_are_trailing_ids_witness :
  validate_universe_file scenario_A_universe = inr ["1B+"]
  /\ validate_data_file scenario_A_data ["1B+"] = inr tt
  /\ exists merged ex ful,
       reconcile scenario_A_data scenario_A_universe ["1B+"] = inr merged
       /\ map m_excess (rows merged) = [Fin 1]
       /\ process_files (kind := insertion_sort_kind)
            scenario_A_data scenario_A_universe ["1B+"] = inr (ex, ful)
       /\ map e_Response_ID ex = [3].
Proof.
  assert (Hu : validate_universe_file scenario_A_universe = inr ["1B+"])
    by (vm_compute; reflexivity).
  assert (Hd : validate_data_file scenario_A_data ["1B+"] = inr tt)
    by (vm_compute; reflexivity).
  split; [exact Hu|]. split; [exact Hd|].
  destruct (reconcile scenario_A_data scenario_A_universe ["1B+"])
    as [e|merged] eqn:Hm; [vm_compute in Hm; discriminate|].
  destruct (excess_rows_are_trailing_ids (kind := insertion_sort_kind)
              scenario_A_data scenario_A_universe ["1B+"] merged Hu Hd Hm)
    as (_ & Hret & _).
  vm_compute in Hm. injection Hm as <-.
  destruct Hret as (ex & ful & Hp).
  { intros row [<-|[]]. discriminate. }
  eexists. exists ex, ful.
  split; [reflexivity|]. split; [reflexivity|]. split; [exact Hp|].
  vm_compute in Hp. injection Hp as <- _. reflexivity.
Defined.

(** The claim as stated fails when the excess is not an integer between 1
    and the count, on tables that both validators accept. With quota -2
    the excess of three respondents is 5 and three rows are emitted; with
    quota 3/2 the excess is 3/2 and one row is emitted. *)
Lemma excess_is_not_the_number_of_rows :
  (validate_universe_file (one_cell_universe (Number (-2))) = inr ["1B+"]
   /\ validate_data_file scenario_A_data ["1B+"] = inr tt
   /\ exists merged ex ful,
        reconcile scenario_A_data (one_cell_universe (Number (-2))) ["1B+"]
        = inr merged
        /\ map m_excess (rows merged) = [Fin 5]
        /\ process_files (kind := insertion_sort_kind)
             scenario_A_data (one_cell_universe (Number (-2))) ["1B+"]
           = inr (ex, ful)
        /\ map e_Response_ID ex = [1; 2; 3])
  /\ (validate_universe_file (one_cell_universe (Number (3 # 2))) = inr ["1B+"]
      /\ exists merged ex ful,
           reconcile scenario_A_data (one_cell_universe (Number (3 # 2)))
                     ["1B+"]
           = inr merged
           /\ map m_excess (rows merged) = [Fin (3 # 2)]
           /\ process_files (kind := insertion_sort_kind)
                scenario_A_data (one_cell_universe (Number (3 # 2))) ["1B+"]
              = inr (ex, ful)
           /\ map e_Response_ID ex = [3]).
Proof.
  repeat split; try (vm_compute; reflexivity);
    eexists _, _, _; repeat split; vm_compute; reflexivity.
Qed.
(* ------------------------------------------------------------------ *)
(** ** Null and zero quotas *)

(** Steps 4 and 5 on a row of the merge whose quota is null or zero:
    neither raises. *)
Lemma null_or_zero_quota_row (j : joined_row) :
  j_quota j = Blank
  \/ (exists x, j_quota j = Number x /\ (x = NaN \/ iszero x = true)) ->
  exists m part, calculate_row j = inr m /\ excess_of_row m = inr part.
Proof.
  intros Hq.
  assert (Hx : exists x, as_number (j_quota j) = inr x /\ x <> NInf).
  { destruct Hq as [->|(x & -> & [->|Hx])]; simpl; eexists;
      (split; [reflexivity|]); try discriminate.
    intros ->. discriminate. }
  destruct Hx as (x & Hx & Hfin).
  unfold calculate_row. rewrite Hx. cbn [bind ret].
  eexists. destruct (excess_of_row_returns
                       {| m_key := j_key j;
                          m_count := j_count j;
                          m_response_ids := j_response_ids j;
                          m_quota := x;
                          m_excess :=
                            clip_lower (Fin 0) (sub (of_int (j_count j)) x);
                          m_fulfillment_percentage :=
                            clip_upper (Fin 100)
                              (mul (div (of_int (j_count j)) x) (Fin 100)) |})
    as (part & Hpart).
  { cbn [m_excess]. intros H. now apply excess_infinite in H. }
  exists part. split; [reflexivity|exact Hpart].
Qed.

(** C2, as the code has it. Steps 4 and 5 raise nothing on a row whose
    quota is null or zero. Whenever [process_files] returns on validated
    tables, its fulfillment table holds exactly one row for each row of
    [merged_df] that has a quota: a segment whose quota is null
    contributes no row. A segment whose quota is zero does contribute a
    row: at the cap 100 for a quota of 0 (the quotient [+inf], clipped),
    and at [-inf] for a quota of [-0.0] (the quotient [-inf], which the
    upper clip leaves). No reported percentage is a NaN, [+inf] or above
    100. *)
Theorem null_quota_excluded_zero_quota_capped {kind : SortKind}
  (d : data_frame) (u : universe_frame) (r : list string)
  (ex : list excess_respondent) (ful : frame fulfillment_row) :
  validate_universe_file u = inr r -> validate_data_file d r = inr tt ->
  process_files d u r = inr (ex, ful) ->
  (forall j,
      j_quota j = Blank
      \/ (exists x, j_quota j = Number x /\ (x = NaN \/ iszero x = true)) ->
      exists m part, calculate_row j = inr m /\ excess_of_row m = inr part)
  /\ exists merged,
      reconcile d u r = inr merged
      /\ Permutation (rows ful)
           (map report_row (filter has_quota (rows merged)))
      /\ (forall row, In row (rows merged) -> m_quota row = NaN ->
            ~ In row (filter has_quota (rows merged)))
      /\ (forall f, In f (rows ful) -> f_Quota f <> NaN)
      /\ (forall row q, In row (rows merged) -> m_quota row = Fin q ->
            (q == 0)%Q ->
            In (report_row row) (rows ful)
            /\ f_Fulfillment_Percentage (report_row row) = Fin 100)
      /\ (forall row, In row (rows merged) -> m_quota row = NZero ->
            In (report_row row) (rows ful)
            /\ f_Fulfillment_Percentage (report_row row) = NInf)
      /\ (forall f, In f (rows ful) ->
            f_Fulfillment_Percentage f <> NaN
            /\ f_Fulfillment_Percentage f <> PInf
            /\ gtb (f_Fulfillment_Percentage f) (Fin 100) = false).
Proof.
  intros Hu Hd Hp.
  split; [exact null_or_zero_quota_row|].
  apply process_files_inr in Hp as (merged & parts & Hm & _ & _ & Hful).
  exists merged.
  assert (Hrows : rows ful =
                  map display_row
                    (sort_values (map round_fulfillment
                                      (filter has_quota (rows merged)))))
    by (subst ful; reflexivity).
  assert (Hpct : forall row, In row (rows merged) ->
            1 <= m_count row
            /\ f_Fulfillment_Percentage (report_row row)
               = round2 (clip_upper (Fin 100)
                           (mul (div (of_int (m_count row)) (m_quota row))
                                (Fin 100)))).
  { intros row Hrow.
    destruct (merged_row_facts d u r merged row Hm Hrow)
      as (_ & _ & Hc & _ & Hfp & _).
    destruct (report_row_fields row) as (_ & _ & _ & ->).
    now rewrite Hfp. }
  assert (Hin : forall row, In row (rows merged) -> m_quota row <> NaN ->
            In (report_row row) (rows ful)).
  { intros row Hrow Hq. rewrite Hrows. apply fulfillment_rows_in.
    exists row. repeat split; [exact Hrow|].
    unfold has_quota. now destruct (m_quota row). }
  split; [exact Hm|].
  split; [rewrite Hrows; apply fulfillment_rows_perm|].
  split.
  { intros row _ Hq Hrow. apply filter_In in Hrow as [_ Hrow].
    unfold has_quota in Hrow. rewrite Hq in Hrow. discriminate. }
  split.
  { intros f Hf. rewrite Hrows in Hf.
    apply fulfillment_rows_in in Hf as (row & _ & Hq & ->).
    destruct (report_row_fields row) as (_ & _ & -> & _).
    unfold has_quota in Hq. intros E. rewrite E in Hq. discriminate. }
  split.
  { intros row q Hrow Hq H0.
    split; [apply Hin; [exact Hrow|now rewrite Hq]|].
    destruct (Hpct row Hrow) as (Hc & ->). rewrite Hq.
    now apply fulfillment_of_zero_quota. }
  split.
  { intros row Hrow Hq.
    split; [apply Hin; [exact Hrow|now rewrite Hq]|].
    destruct (Hpct row Hrow) as (Hc & ->). rewrite Hq.
    now apply fulfillment_of_negative_zero_quota. }
  intros f Hf. rewrite Hrows in Hf.
  apply fulfillment_rows_in in Hf as (row & Hrow & Hq & ->).
  destruct (Hpct row Hrow) as (Hc & ->).
  apply fulfillment_reported; [exact Hc|].
  unfold has_quota in Hq. intros E. rewrite E in Hq. discriminate.
Qed.

Lemma null_quota_excluded_zero_quota_capped_witness :
  validate_universe_file (one_cell_universe (Number 0)) = inr ["1B+"]
  /\ validate_data_file unmatched_data ["1B+"] = inr tt
  /\ exists merged ex ful,
       process_files (kind := insertion_sort_kind)
         unmatched_data (one_cell_universe (Number 0)) ["1B+"]
       = inr (ex, ful)
       /\ reconcile unmatched_data (one_cell_universe (Number 0)) ["1B+"]
          = inr merged
       /\ map m_quota (rows merged) = [NaN; Fin 0]
       /\ forall f, In f (rows ful) -> f_Quota f <> NaN.
Proof.
  assert (Hu : validate_universe_file (one_cell_universe (Number 0))
               = inr ["1B+"]) by (vm_compute; reflexivity).
  assert (Hd : validate_data_file unmatched_data ["1B+"] = inr tt)
    by (vm_compute; reflexivity).
  split; [exact Hu|]. split; [exact Hd|].
  destruct (process_files (kind := insertion_sort_kind)
              unmatched_data (one_cell_universe (Number 0)) ["1B+"])
    as [e|[ex ful]] eqn:Hp; [vm_compute in Hp; discriminate|].
  destruct (null_quota_excluded_zero_quota_capped
              (kind := insertion_sort_kind) _ _ _ ex ful Hu Hd Hp)
    as (_ & merged & Hm & _ & _ & Hq & _).
  exists merged, ex, ful. repeat split; try assumption.
  vm_compute in Hm. injection Hm as <-. reflexivity.
Defined.

(** The claim as stated fails for a zero quota: the segment of scenario A
    with quota 0 has a row in the fulfillment table, at 100 percent; with
    quota [-0.0] it has a row as well, and the percentage reported is
    [-inf]. *)
Lemma zero_quota_is_reported :
  (exists ex,
      process_files (kind := insertion_sort_kind)
        scenario_A_data (one_cell_universe (Number 0)) ["1B+"]
      = inr (ex,
             Frame fulfillment_columns
                   [{| f_Country := "USA"; f_Industry := "Tech";
                       f_Revenue_Range := "1B+"; f_Count := 3;
                       f_Quota := Fin 0;
                       f_Fulfillment_Percentage := Fin 100 |}]))
  /\ validate_universe_file (one_cell_universe (Number NZero)) = inr ["1B+"]
  /\ exists ex,
      process_files (kind := insertion_sort_kind)
        scenario_A_data (one_cell_universe (Number NZero)) ["1B+"]
      = inr (ex,
             Frame fulfillment_columns
                   [{| f_Country := "USA"; f_Industry := "Tech";
                       f_Revenue_Range := "1B+"; f_Count := 3;
                       f_Quota := NZero;
                       f_Fulfillment_Percentage := NInf |}]).
Proof.
  split; [eexists; vm_compute; reflexivity|].
  split; [vm_compute; reflexivity|].
  eexists. vm_compute. reflexivity.
Qed.
(* ------------------------------------------------------------------ *)
(** ** Segments without a quota row *)




(* ------------------------------------------------------------------ *)
(** ** Respondents without a revenue range *)

Lemma dropna_app (a b : list (option string)) :
  dropna (a ++ b) = dropna a ++ dropna b.
Proof.
  induction a as [|[s|] a IH]; simpl; [reflexivity| |exact IH].
  now rewrite IH.
Qed.

Lemma segment_of_no_revenue_range (x : respondent) :
  r_Revenue_Range x = None -> segment_of x = None.
Proof.
  unfold segment_of. intros ->.
  destruct (r_Country x), (r_Industry x); reflexivity.
Qed.

(** C10. A respondent row whose revenue range is missing changes nothing:
    [validate_data_file] gives the verdict it gives without the row, no
    segment has the row among its respondents, and [process_files] returns
    what it returns without the row. *)
Theorem missing_revenue_range_is_ignored {kind : SortKind}
  (cols : list string) (l1 l2 : list respondent) (x : respondent)
  (u : universe_frame) (r : list string) :
  r_Revenue_Range x = None ->
  let with_x := {| d_columns := cols; d_rows := l1 ++ x :: l2 |} in
  let without_x := {| d_columns := cols; d_rows := l1 ++ l2 |} in
  validate_data_file with_x r = validate_data_file without_x r
  /\ (forall k, in_segment k x = false)
  /\ (forall k, ids_of k (d_rows with_x) = ids_of k (d_rows without_x))
  /\ groupby (d_rows with_x) = groupby (d_rows without_x)
  /\ process_files with_x u r = process_files without_x u r.
Proof.
  intros Hx with_x without_x.
  pose proof (segment_of_no_revenue_range x Hx) as Hseg.
  assert (Hin : forall k, in_segment k x = false)
    by (intros k; unfold in_segment; now rewrite Hseg).
  assert (Hg : groupby (d_rows with_x) = groupby (d_rows without_x))
    by (apply groupby_skips; exact Hseg).
  split.
  { unfold validate_data_file, with_x, without_x. cbn [d_columns d_rows].
    rewrite !map_app. cbn [map]. rewrite Hx.
    rewrite !dropna_app. reflexivity. }
  split; [exact Hin|]. split.
  { intros k. unfold ids_of, with_x, without_x. cbn [d_rows].
    rewrite !filter_app. cbn [filter]. now rewrite Hin. }
  split; [exact Hg|].
  unfold process_files, reconcile, groupby_agg.
  rewrite Hg. reflexivity.
Qed.

Lemma missing_revenue_range_is_ignored_witness :
  validate_data_file
    {| d_columns := data_columns;
       d_rows := [respondent_of 1 "USA" "Tech" "1B+"]
                   ++ no_revenue_range 9 "USA" "Tech"
                   :: [respondent_of 2 "USA" "Tech" "1B+";
                       respondent_of 3 "USA" "Tech" "1B+"] |} ["1B+"]
  = inr tt
  /\ process_files (kind := insertion_sort_kind)
       {| d_columns := data_columns;
          d_rows := [respondent_of 1 "USA" "Tech" "1B+"]
                      ++ no_revenue_range 9 "USA" "Tech"
                      :: [respondent_of 2 "USA" "Tech" "1B+";
                          respondent_of 3 "USA" "Tech" "1B+"] |}
       scenario_A_universe ["1B+"]
     = process_files (kind := insertion_sort_kind)
         scenario_A_data scenario_A_universe ["1B+"].
Proof.
  destruct (missing_revenue_range_is_ignored (kind := insertion_sort_kind)
              data_columns [respondent_of 1 "USA" "Tech" "1B+"]
              [respondent_of 2 "USA" "Tech" "1B+";
               respondent_of 3 "USA" "Tech" "1B+"]
              (no_revenue_range 9 "USA" "Tech") scenario_A_universe ["1B+"]
              eq_refl)
    as (Hv & _ & _ & _ & Hp).
  split.
  - rewrite Hv. vm_compute. reflexivity.
  - exact Hp.
Defined.

(* ------------------------------------------------------------------ *)
(** ** [validate_data_file]: the revenue-range values *)

Lemma dropna_in (l : list (option string)) (v : string) :
  In v (dropna l) <-> In (Some v) l.
Proof.
  induction l as [|[s|] l IH]; simpl.
  - tauto.
  - rewrite IH. split; intros [H|H]; auto; left; congruence.
  - rewrite IH. split; [auto|]. intros [H|H]; [discriminate|exact H].
Qed.

Lemma unique_from_in (seen l : list string) (v : string) :
  In v (unique_from seen l) <-> In v l /\ ~ In v seen.
Proof.
  revert seen. induction l as [|x l IH]; intros seen; simpl.
  - tauto.
  - destruct (mem x seen) eqn:E.
    + apply mem_in in E. rewrite IH. split.
      * tauto.
      * intros [[<-|H] Hn]; tauto.
    + apply mem_not_in in E. simpl. rewrite IH. simpl. split.
      * intros [<-|[H Hn]]; tauto.
      * intros [[<-|H] Hn]; [now left|].
        destruct (String.eqb_spec x v) as [->|Hne]; [now left|].
        right. split; [exact H|]. tauto.
Qed.

(** Scenario C of the specification. *)
Example scenario_C_message :
  validate_data_file scenario_C_data scenario_C_revenue_ranges =
  inl (Raise ValueError
         "Data file contains invalid Revenue Range values: 2B+. Expected values are: Less than 250M, 250M to 500M, 500M to 1B, 1B+").
Proof. vm_compute. reflexivity. Qed.

(* ------------------------------------------------------------------ *)
(** ** [validate_universe_file]: the numeric check *)

Lemma first_offender {A : Type} (ok : A -> bool) (l : list A) :
  (exists x, In x l /\ ok x = false) ->
  exists pre x post,
    l = pre ++ x :: post
    /\ (forall y, In y pre -> ok y = true)
    /\ ok x = false.
Proof.
  induction l as [|a l IH]; intros (x & Hx & Hok); [destruct Hx|].
  destruct (ok a) eqn:E.
  - destruct Hx as [->|Hx]; [congruence|].
    destruct IH as (pre & y & post & -> & Hpre & Hy); [now exists x|].
    exists (a :: pre), y, post. repeat split; [|exact Hy].
    intros z [<-|Hz]; auto.
  - exists [], a, l. repeat split; [|exact E]. intros y [].
Qed.

Lemma for_each_stops {A : Type} (body : A -> result unit) (pre post : list A)
  (x : A) (e : exn) :
  (forall y, In y pre -> body y = inr tt) -> body x = inl e ->
  for_each body (pre ++ x :: post) = inl e.
Proof.
  intros Hpre Hx. induction pre as [|a pre IH]; simpl.
  - now rewrite Hx.
  - rewrite (Hpre a (or_introl eq_refl)). simpl.
    apply IH. intros y Hy. apply Hpre. now right.
Qed.

(** C5, as the code has it. When the quota table has its Industry and
    Country columns and at least one revenue-range column that is not
    numeric, [validate_universe_file] fails with a [ValueError] that names
    one column: the first one, in column order, that is not numeric. *)
Theorem validate_universe_file_names_first_offender (u : universe_frame) :
  incl ["Industry"; "Country"] (u_columns u) ->
  (exists c, In c (revenue_columns (u_columns u))
             /\ is_numeric_dtype (column u c) = false) ->
  exists pre col post,
    revenue_columns (u_columns u) = pre ++ col :: post
    /\ (forall c, In c pre -> is_numeric_dtype (column u c) = true)
    /\ is_numeric_dtype (column u col) = false
    /\ validate_universe_file u =
       inl (Raise ValueError
              ("Universe file column '" ++ col
                 ++ "' must contain numeric values.")).
Proof.
  intros Hreq Hbad.
  destruct (first_offender (fun c => is_numeric_dtype (column u c)) _ Hbad)
    as (pre & col & post & Hsplit & Hpre & Hcol).
  exists pre, col, post. repeat split; try assumption.
  unfold validate_universe_file. fold (revenue_columns (u_columns u)).
  apply missing_from_nil in Hreq. rewrite Hreq. cbn [nonempty].
  rewrite Hsplit.
  replace (negb (nonempty (pre ++ col :: post))) with false
    by (now destruct pre).
  rewrite (for_each_stops _ pre post col
             (Raise ValueError
                ("Universe file column '" ++ col
                   ++ "' must contain numeric values."))).
  - reflexivity.
  - intros c Hc. now rewrite (Hpre c Hc).
  - now rewrite Hcol.
Qed.

Lemma validate_universe_file_names_first_offender_witness :
  incl ["Industry"; "Country"] (u_columns two_text_columns)
  /\ (exists c, In c (revenue_columns (u_columns two_text_columns))
                /\ is_numeric_dtype (column two_text_columns c) = false)
  /\ exists pre col post,
       revenue_columns (u_columns two_text_columns) = pre ++ col :: post
       /\ (forall c, In c pre ->
             is_numeric_dtype (column two_text_columns c) = true)
       /\ is_numeric_dtype (column two_text_columns col) = false
       /\ validate_universe_file two_text_columns =
          inl (Raise ValueError
                 ("Universe file column '" ++ col
                    ++ "' must contain numeric values.")).
Proof.
  assert (H1 : incl ["Industry"; "Country"] (u_columns two_text_columns))
    by (intros c Hc; simpl in *; tauto).
  assert (H2 : exists c, In c (revenue_columns (u_columns two_text_columns))
                         /\ is_numeric_dtype (column two_text_columns c) = false)
    by (exists "1B+"; split; [simpl; tauto|reflexivity]).
  split; [exact H1|]. split; [exact H2|].
  exact (validate_universe_file_names_first_offender two_text_columns H1 H2).
Defined.

(** The claim as stated fails: with two columns that hold a text, the
    message names the first of them and not the second. *)
Lemma second_offender_is_not_named :
  is_numeric_dtype (column two_text_columns "500M to 1B") = false
  /\ is_numeric_dtype (column two_text_columns "1B+") = false
  /\ validate_universe_file two_text_columns =
     inl (Raise ValueError
            "Universe file column '500M to 1B' must contain numeric values.")
  /\ String.index 0 "1B+"
       "Universe file column '500M to 1B' must contain numeric values."
     = None.
Proof.
  repeat split; vm_compute; reflexivity.
Qed.

(* ------------------------------------------------------------------ *)
(** ** The reshaped quota table (Step 2) *)






(* ------------------------------------------------------------------ *)
(** ** The column check of Step 6 *)

Lemma missing_from_in (cols required : list string) (c : string) :
  In c (missing_from cols required) <-> In c required /\ ~ In c cols.
Proof.
  unfold missing_from. now rewrite filter_In, negb_true_iff, mem_not_in.
Qed.

(** The check never fires inside [process_files]: [merged_df] always has
    the required columns. *)
Lemma reconcile_has_required_columns (d : data_frame) (u : universe_frame)
  (r : list string) (merged : frame merged_row) :
  reconcile d u r = inr merged ->
  missing_from (columns merged) required_columns = [].
Proof.
  intros H. apply reconcile_inr in H as (_ & _ & _ & -> & _). reflexivity.
Qed.

(** C8, as the code has it. If the frame that reaches the end of Step 6
    lacks some of the required columns, the check raises a [ValueError]
    that names them, and the [except] clause of [process_files] raises it
    anew as a [ValueError] whose message is that of the check after
    "Error processing files: ". The failure is not swallowed; it has the
    class of every other error of the program, and [main] shows it
    through the clause that shows the validation errors. *)
Theorem missing_output_columns_raise_value_error
  (fulfillment_df : frame merged_row) (excess_respondents : list excess_respondent) :
  (exists c, In c required_columns /\ ~ In c (columns fulfillment_df)) ->
  exists missing_columns,
    (forall c, In c missing_columns <->
               In c required_columns /\ ~ In c (columns fulfillment_df))
    /\ select_columns fulfillment_df =
       inl (Raise ValueError
              ("Internal error: Missing columns in fulfillment DataFrame: "
                 ++ join ", " missing_columns))
    /\ try_except
         (selected <- select_columns fulfillment_df ;;
          ret (excess_respondents, selected)) =
       inl (Raise ValueError
              ("Error processing files: Internal error: Missing columns in fulfillment DataFrame: "
                 ++ join ", " missing_columns))
    /\ st_error
         (Raise ValueError
            ("Error processing files: Internal error: Missing columns in fulfillment DataFrame: "
               ++ join ", " missing_columns)) =
       ("Error: Error processing files: Internal error: Missing columns in fulfillment DataFrame: "
          ++ join ", " missing_columns)%string.
Proof.
  intros (c & Hreq & Hcols).
  exists (missing_from (columns fulfillment_df) required_columns).
  split; [intros c'; apply missing_from_in|].
  assert (Hne : nonempty (missing_from (columns fulfillment_df) required_columns)
                = true).
  { assert (Hin : In c (missing_from (columns fulfillment_df) required_columns))
      by (apply missing_from_in; now split).
    destruct (missing_from _ _); [destruct Hin|reflexivity]. }
  unfold select_columns. fold required_columns. rewrite Hne.
  repeat split.
Qed.

Lemma missing_output_columns_raise_value_error_witness :
  (exists c, In c required_columns /\ ~ In c (columns frame_without_quota))
  /\ exists missing_columns,
       (forall c, In c missing_columns <->
                  In c required_columns /\ ~ In c (columns frame_without_quota))
       /\ select_columns frame_without_quota =
          inl (Raise ValueError
                 ("Internal error: Missing columns in fulfillment DataFrame: "
                    ++ join ", " missing_columns)).
Proof.
  assert (H : exists c, In c required_columns
                        /\ ~ In c (columns frame_without_quota)).
  { exists "quota". split; [simpl; tauto|].
    apply mem_not_in. reflexivity. }
  split; [exact H|].
  destruct (missing_output_columns_raise_value_error frame_without_quota [] H)
    as (missing_columns & Hm & Hs & _).
  now exists missing_columns.
Defined.

(** The claim as stated fails: the error of the check is not of a kind of
    its own. What leaves [process_files] is a [ValueError], the class of
    the validation errors, under the prefix of the processing errors, and
    [main] treats both alike. *)
Lemma internal_error_is_a_wrapped_value_error :
  try_except
    (selected <- select_columns frame_without_quota ;;
     ret (@nil excess_respondent, selected)) =
  inl (Raise ValueError
         "Error processing files: Internal error: Missing columns in fulfillment DataFrame: quota")
  /\ validate_universe_file two_text_columns =
     inl (Raise ValueError
            "Universe file column '500M to 1B' must contain numeric values.")
  /\ st_error
       (Raise ValueError
          "Error processing files: Internal error: Missing columns in fulfillment DataFrame: quota")
     = "Error: Error processing files: Internal error: Missing columns in fulfillment DataFrame: quota"
  /\ st_error
       (Raise ValueError
          "Universe file column '500M to 1B' must contain numeric values.")
     = "Error: Universe file column '500M to 1B' must contain numeric values.".
Proof.
  repeat split; vm_compute; reflexivity.
Qed.

(* ------------------------------------------------------------------ *)
(** * Further properties *)

(** ** The validators, rule by rule *)

Lemma missing_from_nonempty (cols required : list string) :
  nonempty (missing_from cols required) = true <->
  exists c, In c required /\ ~ In c cols.
Proof.
  split.
  - destruct (missing_from cols required) as [|c cs] eqn:E; [discriminate|].
    intros _. exists c. apply missing_from_in. rewrite E. now left.
  - intros (c & Hc). apply missing_from_in in Hc.
    destruct (missing_from cols required); [destruct Hc|reflexivity].
Qed.

Lemma missing_from_sublist (cols required : list string) :
  forall c, In c (missing_from cols required) -> In c required.
Proof. intros c Hc. now apply missing_from_in in Hc. Qed.

(** X1. When the data file lacks some of the four required columns,
    [validate_data_file] fails with a [ValueError] that lists the absent
    ones, in the order responseid, Country, Industry, Revenue Range. The
    revenue-range values and the accepted names play no part: this rule
    comes first. *)
Theorem validate_data_file_missing_columns (d : data_frame) (r : list string) :
  (exists c, In c data_columns /\ ~ In c (d_columns d)) ->
  validate_data_file d r =
  inl (Raise ValueError
         ("Data file is missing required columns: "
            ++ join ", " (missing_from (d_columns d) data_columns)))
  /\ forall c, In c (missing_from (d_columns d) data_columns)
               <-> In c data_columns /\ ~ In c (d_columns d).
Proof.
  intros H. apply missing_from_nonempty in H.
  split; [|intros c; apply missing_from_in].
  unfold validate_data_file. fold data_columns. now rewrite H.
Qed.

Lemma validate_data_file_missing_columns_witness :
  (exists c, In c data_columns /\ ~ In c ["responseid"; "Industry"])
  /\ validate_data_file
       {| d_columns := ["responseid"; "Industry"];
          d_rows := [respondent_of 1 "USA" "Tech" "2B+"] |} ["1B+"]
     = inl (Raise ValueError
              "Data file is missing required columns: Country, Revenue Range").
Proof.
  assert (H : exists c, In c data_columns /\ ~ In c ["responseid"; "Industry"]).
  { exists "Country". split; [simpl; tauto|]. apply mem_not_in. reflexivity. }
  split; [exact H|].
  exact (proj1 (validate_data_file_missing_columns
                  {| d_columns := ["responseid"; "Industry"];
                     d_rows := [respondent_of 1 "USA" "Tech" "2B+"] |}
                  ["1B+"] H)).
Defined.

(** The list that [validate_data_file] builds for its second rule. *)
Lemma invalid_revenue_ranges_in (d : data_frame) (r : list string) (v : string) :
  In v (filter (fun x => negb (mem x r))
               (unique (dropna (map r_Revenue_Range (d_rows d)))))
  <-> In (Some v) (map r_Revenue_Range (d_rows d)) /\ ~ In v r.
Proof.
  rewrite filter_In. unfold unique.
  rewrite unique_from_in, dropna_in, negb_true_iff, mem_not_in.
  simpl. tauto.
Qed.

(** X2. [validate_data_file] accepts a table exactly when it has the four
    required columns and every revenue range that is not missing is one
    of the accepted names. *)
Theorem validate_data_file_accepts (d : data_frame) (r : list string) :
  validate_data_file d r = inr tt <->
  incl data_columns (d_columns d)
  /\ forall v, In (Some v) (map r_Revenue_Range (d_rows d)) -> In v r.
Proof.
  unfold validate_data_file. fold data_columns.
  fold (missing_from (d_columns d) data_columns).
  rewrite <- missing_from_nil.
  destruct (missing_from (d_columns d) data_columns) as [|c cs];
    [|simpl; unfold raise; split; [discriminate|intros [H _]; discriminate]].
  cbn [nonempty].
  destruct (filter _ _) as [|x xs] eqn:E.
  - split; [|reflexivity]. intros _. split; [reflexivity|].
    intros v Hv. destruct (in_dec string_dec v r) as [Hr|Hr]; [exact Hr|].
    assert (Hin : In v []) by (rewrite <- E; apply invalid_revenue_ranges_in; tauto).
    destruct Hin.
  - cbn [nonempty]. unfold raise. split; [discriminate|].
    intros (_ & Hall). exfalso.
    assert (Hx : In x (x :: xs)) by now left.
    rewrite <- E in Hx. apply invalid_revenue_ranges_in in Hx as (Hx & Hn).
    apply Hn. now apply Hall.
Qed.

(** X3. When the universe file lacks Industry or Country,
    [validate_universe_file] fails with a [ValueError] that lists the
    absent ones, Industry before Country, whatever the other columns
    hold. *)
Theorem validate_universe_file_missing_columns (u : universe_frame) :
  (exists c, In c ["Industry"; "Country"] /\ ~ In c (u_columns u)) ->
  validate_universe_file u =
  inl (Raise ValueError
         ("Universe file is missing required columns: "
            ++ join ", " (missing_from (u_columns u) ["Industry"; "Country"])))
  /\ forall c, In c (missing_from (u_columns u) ["Industry"; "Country"])
               <-> In c ["Industry"; "Country"] /\ ~ In c (u_columns u).
Proof.
  intros H. apply missing_from_nonempty in H.
  split; [|intros c; apply missing_from_in].
  unfold validate_universe_file. now rewrite H.
Qed.

Lemma validate_universe_file_missing_columns_witness :
  (exists c, In c ["Industry"; "Country"] /\ ~ In c ["Country"; "1B+"])
  /\ validate_universe_file
       {| u_columns := ["Country"; "1B+"]; u_rows := [] |}
     = inl (Raise ValueError
              "Universe file is missing required columns: Industry").
Proof.
  assert (H : exists c, In c ["Industry"; "Country"]
                        /\ ~ In c ["Country"; "1B+"]).
  { exists "Industry". split; [simpl; tauto|]. apply mem_not_in. reflexivity. }
  split; [exact H|].
  exact (proj1 (validate_universe_file_missing_columns
                  {| u_columns := ["Country"; "1B+"]; u_rows := [] |} H)).
Defined.

(** X4. When the universe file has Industry and Country and no other
    column, [validate_universe_file] fails with the [ValueError] that asks
    for at least one revenue range column. *)
Theorem validate_universe_file_no_revenue_range (u : universe_frame) :
  incl ["Industry"; "Country"] (u_columns u) ->
  (forall c, In c (u_columns u) -> c = "Industry" \/ c = "Country") ->
  validate_universe_file u =
  inl (Raise ValueError
         "Universe file must have at least one revenue range column (e.g., 'Less than 250M', '250M to 500M').").
Proof.
  intros Hreq Honly. unfold validate_universe_file.
  apply missing_from_nil in Hreq. rewrite Hreq. cbn [nonempty].
  fold (revenue_columns (u_columns u)).
  assert (Hnone : revenue_columns (u_columns u) = []).
  { destruct (revenue_columns (u_columns u)) as [|c cs] eqn:E; [reflexivity|].
    assert (Hc : In c (revenue_columns (u_columns u))) by (rewrite E; now left).
    apply filter_In in Hc as [Hin Hneg].
    destruct (Honly c Hin) as [-> | ->]; discriminate. }
  rewrite Hnone. reflexivity.
Qed.

Lemma validate_universe_file_no_revenue_range_witness :
  incl ["Industry"; "Country"] (u_columns keys_only_universe)
  /\ (forall c, In c (u_columns keys_only_universe) ->
                c = "Industry" \/ c = "Country")
  /\ validate_universe_file keys_only_universe =
     inl (Raise ValueError
            "Universe file must have at least one revenue range column (e.g., 'Less than 250M', '250M to 500M').").
Proof.
  assert (H1 : incl ["Industry"; "Country"] (u_columns keys_only_universe))
    by (intros c Hc; exact Hc).
  assert (H2 : forall c, In c (u_columns keys_only_universe) ->
                         c = "Industry" \/ c = "Country")
    by (intros c [<-|[<-|[]]]; tauto).
  split; [exact H1|]. split; [exact H2|].
  exact (validate_universe_file_no_revenue_range keys_only_universe H1 H2).
Defined.

(** X5. What [validate_universe_file] returns when it accepts: the labels
    of the file other than Industry and Country, in column order and at
    least one; each is a column of the file, and no cell of these columns
    is a text, so that every quota that Step 4 meets is a number or a
    blank. *)
Theorem validate_universe_file_returns (u : universe_frame) (r : list string) :
  validate_universe_file u = inr r ->
  r = filter (fun col => negb (mem col ["Industry"; "Country"])) (u_columns u)
  /\ r <> []
  /\ In "Industry" (u_columns u) /\ In "Country" (u_columns u)
  /\ (forall col, In col r ->
        In col (u_columns u) /\ col <> "Industry" /\ col <> "Country")
  /\ (forall row col, In row (u_rows u) -> In col r ->
        get row col = Blank \/ exists q, get row col = Number q).
Proof.
  intros H. apply validate_universe_file_inr in H as (Hreq & Hr & Hne & Hnum).
  split; [exact Hr|]. split; [exact Hne|].
  split; [apply Hreq; simpl; tauto|]. split; [apply Hreq; simpl; tauto|].
  split.
  - intros col Hcol. rewrite Hr in Hcol. apply filter_In in Hcol as [Hin Hneg].
    split; [exact Hin|].
    split; intros ->; discriminate.
  - intros row col Hrow Hcol.
    assert (Ht : is_text (get row col) = false).
    { apply (numeric_column_has_no_text (column u col)); [now apply Hnum|].
      unfold column. now apply (in_map (fun row => get row col)). }
    destruct (get row col) as [q|s|]; [right; now exists q|discriminate|now left].
Qed.

Lemma validate_universe_file_returns_witness :
  validate_universe_file scenario_A_universe = inr ["1B+"]
  /\ forall row col, In row (u_rows scenario_A_universe) -> In col ["1B+"] ->
       get row col = Blank \/ exists q, get row col = Number q.
Proof.
  assert (H : validate_universe_file scenario_A_universe = inr ["1B+"])
    by (vm_compute; reflexivity).
  split; [exact H|].
  apply (validate_universe_file_returns scenario_A_universe ["1B+"] H).
Defined.

(* ------------------------------------------------------------------ *)
(** ** When [process_files] returns and when it raises *)

(** The quota cell of an observed segment is the quota of a row of the
    merge. *)
Lemma observed_quota_cell_is_joined (d : data_frame) (u : universe_frame)
  (r : list string) (row : quota_row) (col : string) :
  let k := (q_Country row, q_Industry row, col) in
  ids_of k (d_rows d) <> [] -> In row (u_rows u) -> In col r ->
  In (joined (agg (k, ids_of k (d_rows d))) (get row col)) (joined_rows d u r).
Proof.
  intros k Hk Hrow Hcol.
  unfold joined_rows. apply in_flat_map.
  eexists. split; [apply in_map, groupby_spec; split; [reflexivity|exact Hk]|].
  unfold merge_row. cbn [agg g_key fst].
  assert (Hm1 : In (melted col row)
                   (filter (same_segment k) (unpivot u r))).
  { apply filter_In. split.
    - apply unpivot_in. now exists col, row.
    - unfold k, same_segment, melted, get. cbn.
      now rewrite !String.eqb_refl. }
  destruct (filter _ _) as [|m ms] eqn:Ef; [destruct Hm1|].
  apply in_map_iff. exists (melted col row). split; [reflexivity|exact Hm1].
Qed.




Lemma reconcile_fails_process_files_fails {kind : SortKind} (d : data_frame)
  (u : universe_frame) (r : list string) (e : exn) :
  reconcile d u r = inl e ->
  process_files d u r =
  inl (Raise ValueError ("Error processing files: " ++ exn_str e)).
Proof. intros H. unfold process_files. rewrite H. reflexivity. Qed.

Lemma reconcile_not_inr_is_inl (d : data_frame) (u : universe_frame)
  (r : list string) :
  (forall merged, reconcile d u r <> inr merged) ->
  exists e, reconcile d u r = inl e.
Proof.
  intros H. destruct (reconcile d u r) as [e|m]; [now exists e|].
  destruct (H m eq_refl).
Qed.

(** X7. Every exception that leaves [process_files] is a [ValueError] whose
    message starts with "Error processing files: ". It raises one whenever
    the data file lacks responseid or a key column, whenever the universe
    file lacks Country, Industry or one of the revenue ranges it is given,
    and whenever the quota cell of an observed segment is a text. *)
Theorem process_files_failures {kind : SortKind} (d : data_frame)
  (u : universe_frame) (r : list string) :
  (forall e, process_files d u r = inl e ->
     exn_type e = ValueError
     /\ exists msg, exn_str e = ("Error processing files: " ++ msg)%string)
  /\ ((exists c, In c ["Country"; "Industry"; "Revenue Range"; "responseid"]
                 /\ ~ In c (d_columns d))
      \/ (exists c, In c (["Country"; "Industry"] ++ r) /\ ~ In c (u_columns u))
      \/ (exists k row col s,
             ids_of k (d_rows d) <> [] /\ In row (u_rows u) /\ In col r
             /\ k = (q_Country row, q_Industry row, col)
             /\ get row col = Text s) ->
      exists e, process_files d u r = inl e).
Proof.
  split.
  - intros e. unfold process_files, try_except.
    destruct (bind _ _) as [e'|v]; [|discriminate].
    unfold raise. intros [= <-]. split; [reflexivity|]. now exists (exn_str e').
  - intros H.
    assert (Hfail : forall merged, reconcile d u r <> inr merged).
    { intros merged Hm.
      pose proof Hm as Hm'.
      apply reconcile_inr in Hm' as (Hby & Hid & Hu & _ & HF).
      apply missing_from_nil in Hby, Hu. apply mem_in in Hid.
      destruct H as [(c & Hc & Hn)|[(c & Hc & Hn)|H]].
      - apply Hn. simpl in Hc.
        destruct Hc as [<-|[<-|[<-|[<-|[]]]]];
          solve [exact Hid | apply Hby; unfold by_columns; simpl; tauto].
      - apply Hn. now apply Hu.
      - destruct H as (k & row & col & s & Hk & Hrow & Hcol & -> & Ht).
        pose proof (observed_quota_cell_is_joined d u r row col Hk Hrow Hcol)
          as Hj.
        cbv zeta in Hj. rewrite Ht in Hj.
        destruct (Forall2_in_l _ _ _ _ HF Hj) as (m & _ & Hcalc).
        discriminate Hcalc. }
    destruct (reconcile_not_inr_is_inl d u r Hfail) as (e & He).
    eexists. exact (reconcile_fails_process_files_fails d u r e He).
Qed.

Lemma process_files_failures_witness :
  (exists c, In c ["Country"; "Industry"; "Revenue Range"; "responseid"]
             /\ ~ In c (d_columns data_without_country))
  /\ process_files (kind := insertion_sort_kind)
       data_without_country scenario_A_universe ["1B+"]
     = inl (Raise ValueError "Error processing files: 'Country'").
Proof.
  assert (H : exists c, In c ["Country"; "Industry"; "Revenue Range";
                              "responseid"]
                        /\ ~ In c (d_columns data_without_country)).
  { exists "Country". split; [simpl; tauto|]. apply mem_not_in. reflexivity. }
  split; [exact H|].
  destruct (proj2 (process_files_failures (kind := insertion_sort_kind)
                     data_without_country scenario_A_universe ["1B+"])
                  (or_introl H)) as (e & He).
  rewrite He. vm_compute in He. injection He as <-. reflexivity.
Defined.
(* ------------------------------------------------------------------ *)
(** ** The rows of the two outputs, on validated tables *)

(** What a run that returns consists of. *)
Lemma returned_run {kind : SortKind} (d : data_frame) (u : universe_frame)
  (r : list string) (ex : list excess_respondent) (ful : frame fulfillment_row) :
  process_files d u r = inr (ex, ful) ->
  exists merged parts,
    reconcile d u r = inr merged
    /\ Forall2 (fun row part => excess_of_row row = inr part) (rows merged) parts
    /\ ex = concat parts
    /\ rows ful = map display_row
                    (sort_values (map round_fulfillment
                                      (filter has_quota (rows merged)))).
Proof.
  intros Hp.
  apply process_files_inr in Hp as (merged & parts & Hm & HF & Hex & Hful).
  exists merged, parts. repeat split; try assumption.
  rewrite Hful. reflexivity.
Qed.

Lemma clipped_difference (count : Z) (q : Q) :
  exists e,
    clip_lower (Fin 0) (sub (of_int count) (Fin q)) = Fin e
    /\ (0 <= e)%Q
    /\ ((inject_Z count <= q)%Q -> e = 0%Q)
    /\ ((q <= inject_Z count)%Q -> (e == inject_Z count - q)%Q).
Proof.
  unfold clip_lower, sub, of_int. cbn [gtb to_Q].
  pose proof (Qred_correct (inject_Z count - q)) as Hx.
  set (x := Qred (inject_Z count - q)) in *.
  destruct (Qle_bool 0 x) eqn:E; cbn [negb].
  - apply Qle_bool_iff in E. exists x.
    split; [reflexivity|]. split; [exact E|]. split; [|intros _; exact Hx].
    intros Hle.
    assert (Hx0 : (x == 0)%Q).
    { apply Qle_antisym; [|exact E]. rewrite Hx.
      apply (Qplus_le_l _ _ q). ring_simplify. exact Hle. }
    unfold x. rewrite (Qred_complete (inject_Z count - q) 0); [reflexivity|].
    rewrite <- Hx. exact Hx0.
  - exists 0%Q.
    split; [reflexivity|]. split; [apply Qle_refl|]. split; [reflexivity|].
    intros Hle. exfalso.
    assert (H0 : (0 <= x)%Q).
    { rewrite Hx. apply (Qplus_le_l _ _ q). ring_simplify. exact Hle. }
    apply Qle_bool_iff in H0. congruence.
Qed.

Lemma excess_of_row_none (row : merged_row) :
  gtb (m_excess row) (Fin 0) = false -> excess_of_row row = inr [].
Proof. unfold excess_of_row. now intros ->. Qed.

(** The excess of a row on which the loop of Step 5 emits something is a
    finite number above 0. *)
Lemma emitting_row_excess (row : merged_row) (part : list excess_respondent) :
  excess_of_row row = inr part ->
  gtb (m_excess row) (Fin 0) = true ->
  exists v, m_excess row = Fin v /\ (0 < v)%Q.
Proof.
  unfold excess_of_row. intros Hpart Hgt. rewrite Hgt in Hpart.
  destruct (m_excess row) as [v| | | |]; try discriminate.
  exists v. split; [reflexivity|].
  apply Qnot_le_lt. intros Hle. apply Qle_bool_iff in Hle.
  simpl in Hgt. rewrite Hle in Hgt. discriminate.
Qed.

(** X9. Whenever [process_files] returns on validated tables: a segment
    without a quota, and a segment whose count does not exceed its quota,
    contribute no excess row; every excess row that is emitted carries an
    excess that is a finite number above 0. *)
Theorem no_excess_within_quota {kind : SortKind} (d : data_frame)
  (u : universe_frame) (r : list string) (ex : list excess_respondent)
  (ful : frame fulfillment_row) :
  validate_universe_file u = inr r -> validate_data_file d r = inr tt ->
  process_files d u r = inr (ex, ful) ->
  exists merged parts,
    reconcile d u r = inr merged
    /\ ex = concat parts
    /\ Forall2
         (fun row part =>
            excess_of_row row = inr part
            /\ (m_quota row = NaN -> part = [])
            /\ (m_quota row = PInf -> part = [])
            /\ (forall q, m_quota row = Fin q ->
                  (inject_Z (m_count row) <= q)%Q -> part = []))
         (rows merged) parts
    /\ forall e, In e ex -> exists v, e_Excess e = Fin v /\ (0 < v)%Q.
Proof.
  intros Hu Hd Hp.
  destruct (returned_run d u r ex ful Hp)
    as (merged & parts & Hm & HF & Hex & _).
  exists merged, parts.
  split; [exact Hm|]. split; [exact Hex|]. split.
  - eapply Forall2_impl_in; [|exact HF].
    intros row part Hrow Hpart. cbv beta in Hpart.
    destruct (merged_row_facts d u r merged row Hm Hrow)
      as (_ & _ & _ & He & _).
    split; [exact Hpart|]. split; [|split].
    + intros Hq. destruct (null_quota_row row Hq He) as (_ & Hnil & _).
      congruence.
    + intros Hq. rewrite Hq in He.
      rewrite excess_of_row_none in Hpart by (now rewrite He).
      congruence.
    + intros q Hq Hle.
      destruct (clipped_difference (m_count row) q) as (e & He' & _ & H0 & _).
      rewrite Hq, He', (H0 Hle) in He.
      rewrite excess_of_row_none in Hpart by (now rewrite He).
      congruence.
  - intros e He. subst ex.
    destruct (concat_parts_in _ _ _ _ HF He) as (row & part & Hrow & Hpart & Hin).
    destruct (excess_of_row_in row part e Hpart Hin) as (Hgt & id & _ & ->).
    destruct (excess_entry_fields row id) as (_ & _ & _ & -> & _).
    exact (emitting_row_excess row part Hpart Hgt).
Qed.

Lemma no_excess_within_quota_witness :
  validate_universe_file (two_segments_universe (Number 3) (Number 1))
  = inr ["1B+"]
  /\ validate_data_file two_segments_data ["1B+"] = inr tt
  /\ exists ex ful,
       process_files (kind := insertion_sort_kind) two_segments_data
         (two_segments_universe (Number 3) (Number 1)) ["1B+"]
       = inr (ex, ful)
       /\ map e_Response_ID ex = [2]
       /\ forall e, In e ex -> exists v, e_Excess e = Fin v /\ (0 < v)%Q.
Proof.
  assert (Hu : validate_universe_file
                 (two_segments_universe (Number 3) (Number 1)) = inr ["1B+"])
    by (vm_compute; reflexivity).
  assert (Hd : validate_data_file two_segments_data ["1B+"] = inr tt)
    by (vm_compute; reflexivity).
  split; [exact Hu|]. split; [exact Hd|].
  destruct (process_files (kind := insertion_sort_kind) two_segments_data
              (two_segments_universe (Number 3) (Number 1)) ["1B+"])
    as [e|[ex ful]] eqn:Hp; [vm_compute in Hp; discriminate|].
  destruct (no_excess_within_quota (kind := insertion_sort_kind)
              two_segments_data (two_segments_universe (Number 3) (Number 1))
              ["1B+"] ex ful Hu Hd Hp)
    as (merged & parts & _ & _ & _ & Hpos).
  exists ex, ful. split; [reflexivity|]. split; [|exact Hpos].
  vm_compute in Hp. injection Hp as <- _. reflexivity.
Defined.

Lemma int_of_small (e : Q) : (0 < e)%Q -> (e < 1)%Q -> int (Fin e) = inr 0.
Proof.
  destruct e as [n den]. unfold Qlt. simpl. intros H0 H1.
  unfold ret. f_equal. apply Z.quot_small. lia.
Qed.

Lemma int_of_large (e : Q) (count : Z) :
  0 <= count -> (inject_Z count <= e)%Q ->
  exists k, int (Fin e) = inr k /\ count <= k.
Proof.
  destruct e as [n den]. unfold Qle. simpl. intros H0 H1.
  eexists. split; [reflexivity|].
  apply Z.quot_le_lower_bound; lia.
Qed.

(** X10. Whenever [process_files] returns on validated tables: when the
    excess of a segment is a finite number above 0 and below 1, or at
    least its count, the trailing slice is the whole list, and every
    respondent of the segment is emitted as an excess respondent, in
    ascending order of id. *)
Theorem whole_segment_is_excess {kind : SortKind} (d : data_frame)
  (u : universe_frame) (r : list string) (ex : list excess_respondent)
  (ful : frame fulfillment_row) :
  validate_universe_file u = inr r -> validate_data_file d r = inr tt ->
  process_files d u r = inr (ex, ful) ->
  exists merged parts,
    reconcile d u r = inr merged
    /\ ex = concat parts
    /\ Forall2
         (fun row part =>
            forall e, m_excess row = Fin e -> (0 < e)%Q ->
              (e < 1)%Q \/ (inject_Z (m_count row) <= e)%Q ->
              map e_Response_ID part = sorted (ids_of (m_key row) (d_rows d))
              /\ length part = Z.to_nat (m_count row))
         (rows merged) parts.
Proof.
  intros Hu Hd Hp.
  destruct (returned_run d u r ex ful Hp)
    as (merged & parts & Hm & HF & Hex & _).
  exists merged, parts.
  split; [exact Hm|]. split; [exact Hex|].
  eapply Forall2_impl_in; [|exact HF].
  intros row part Hrow Hpart e He Hpos Hcase. cbv beta in Hpart.
  destruct (merged_row_facts d u r merged row Hm Hrow)
    as (Hids & Hcount & Hc1 & _).
  assert (Hall : part = map (excess_entry row) (m_response_ids row)).
  { unfold excess_of_row in Hpart. rewrite He in Hpart.
    assert (Hgt : gtb (Fin e) (Fin 0) = true).
    { simpl. destruct (Qle_bool e 0) eqn:E; [|reflexivity].
      apply Qle_bool_iff in E. exfalso. now apply (Qlt_not_le _ _ Hpos). }
    rewrite Hgt in Hpart.
    destruct Hcase as [Hlt|Hge].
    - rewrite (int_of_small e Hpos Hlt) in Hpart. cbn [bind] in Hpart.
      injection Hpart as <-. reflexivity.
    - destruct (int_of_large e (m_count row)) as (k & Hk & Hle);
        [lia|exact Hge|].
      rewrite Hk in Hpart. cbn [bind] in Hpart. injection Hpart as <-.
      unfold slice_from.
      destruct (Z.ltb_spec (- k) 0) as [_|Habs]; [|lia].
      replace (Z.to_nat (Z.max 0 (Z.of_nat (length (m_response_ids row)) + - k)))
        with 0%nat by lia.
      reflexivity. }
  subst part. rewrite excess_entry_ids, length_map. split; [exact Hids|lia].
Qed.

Lemma whole_segment_is_excess_witness :
  validate_universe_file (one_cell_universe (Number (5 # 2))) = inr ["1B+"]
  /\ validate_data_file scenario_A_data ["1B+"] = inr tt
  /\ exists merged ex ful,
       process_files (kind := insertion_sort_kind) scenario_A_data
         (one_cell_universe (Number (5 # 2))) ["1B+"] = inr (ex, ful)
       /\ reconcile scenario_A_data (one_cell_universe (Number (5 # 2))) ["1B+"]
          = inr merged
       /\ map m_excess (rows merged) = [Fin (1 # 2)]
       /\ map e_Response_ID ex = [1; 2; 3].
Proof.
  assert (Hu : validate_universe_file (one_cell_universe (Number (5 # 2)))
               = inr ["1B+"]) by (vm_compute; reflexivity).
  assert (Hd : validate_data_file scenario_A_data ["1B+"] = inr tt)
    by (vm_compute; reflexivity).
  split; [exact Hu|]. split; [exact Hd|].
  destruct (process_files (kind := insertion_sort_kind) scenario_A_data
              (one_cell_universe (Number (5 # 2))) ["1B+"])
    as [e|[ex ful]] eqn:Hp; [vm_compute in Hp; discriminate|].
  destruct (whole_segment_is_excess (kind := insertion_sort_kind)
              scenario_A_data (one_cell_universe (Number (5 # 2))) ["1B+"]
              ex ful Hu Hd Hp)
    as (merged & parts & Hm & _).
  exists merged, ex, ful. split; [reflexivity|]. split; [exact Hm|].
  vm_compute in Hm. injection Hm as <-. split; [reflexivity|].
  vm_compute in Hp. injection Hp as <- _. reflexivity.
Defined.

Lemma strongly_sorted_map {A B : Type} (R : A -> A -> Prop) (S : B -> B -> Prop)
  (f : A -> B) (l : list A) :
  (forall x y, In x l -> In y l -> R x y -> S (f x) (f y)) ->
  StronglySorted R l -> StronglySorted S (map f l).
Proof.
  intros H Hs. induction Hs as [|x l Hs IH Hall]; simpl; constructor.
  - apply IH. intros a b Ha Hb. apply H; now right.
  - rewrite Forall_forall in *. intros y Hy.
    apply in_map_iff in Hy as (b & <- & Hb).
    apply H; [now left|now right|]. now apply Hall.
Qed.

Lemma before_not_gtb (x y : num) : before x y = true -> gtb y x = false.
Proof.
  destruct x as [a| | | |], y as [b| | | |]; simpl; try congruence;
    now intros ->.
Qed.

(** X11. Whenever [process_files] returns on validated tables, the
    fulfillment table is sorted by percentage, largest first: no row has
    a percentage above that of a row before it, and no percentage is a
    NaN. *)
Theorem fulfillment_table_is_sorted_descending {kind : SortKind}
  (d : data_frame) (u : universe_frame) (r : list string)
  (ex : list excess_respondent) (ful : frame fulfillment_row) :
  validate_universe_file u = inr r -> validate_data_file d r = inr tt ->
  process_files d u r = inr (ex, ful) ->
  StronglySorted
    (fun f g =>
       gtb (f_Fulfillment_Percentage g) (f_Fulfillment_Percentage f) = false)
    (rows ful)
  /\ forall f, In f (rows ful) -> f_Fulfillment_Percentage f <> NaN.
Proof.
  intros Hu Hd Hp.
  destruct (returned_run d u r ex ful Hp)
    as (merged & parts & Hm & _ & _ & Hful).
  rewrite Hful. split.
  - eapply strongly_sorted_map; [|apply sort_values_sorted].
    intros x y _ _ Hxy. cbv beta in Hxy.
    assert (Hpct : forall z, f_Fulfillment_Percentage (display_row z)
                             = m_fulfillment_percentage z).
    { intros z. unfold display_row. now destruct (m_key z) as [[c i] v]. }
    rewrite !Hpct. now apply before_not_gtb.
  - intros f Hf.
    apply fulfillment_rows_in in Hf as (row & Hrow & Hq & ->).
    destruct (merged_row_facts d u r merged row Hm Hrow)
      as (_ & _ & Hc & _ & Hfp & _).
    destruct (report_row_fields row) as (_ & _ & _ & ->).
    rewrite Hfp. apply fulfillment_reported; [exact Hc|].
    unfold has_quota in Hq. intros E. rewrite E in Hq. discriminate.
Qed.

Lemma fulfillment_table_is_sorted_descending_witness :
  validate_universe_file (two_segments_universe (Number 6) (Number 1))
  = inr ["1B+"]
  /\ validate_data_file two_segments_data ["1B+"] = inr tt
  /\ exists ex ful,
       process_files (kind := insertion_sort_kind) two_segments_data
         (two_segments_universe (Number 6) (Number 1)) ["1B+"]
       = inr (ex, ful)
       /\ map f_Fulfillment_Percentage (rows ful) = [Fin 100; Fin 50]
       /\ StronglySorted
            (fun f g =>
               gtb (f_Fulfillment_Percentage g) (f_Fulfillment_Percentage f)
               = false)
            (rows ful).
Proof.
  assert (Hu : validate_universe_file
                 (two_segments_universe (Number 6) (Number 1)) = inr ["1B+"])
    by (vm_compute; reflexivity).
  assert (Hd : validate_data_file two_segments_data ["1B+"] = inr tt)
    by (vm_compute; reflexivity).
  split; [exact Hu|]. split; [exact Hd|].
  destruct (process_files (kind := insertion_sort_kind) two_segments_data
              (two_segments_universe (Number 6) (Number 1)) ["1B+"])
    as [e|[ex ful]] eqn:Hp; [vm_compute in Hp; discriminate|].
  pose proof (proj1 (fulfillment_table_is_sorted_descending
                       (kind := insertion_sort_kind)
                       two_segments_data
                       (two_segments_universe (Number 6) (Number 1))
                       ["1B+"] ex ful Hu Hd Hp)) as Hs.
  exists ex, ful. split; [reflexivity|]. split; [|exact Hs].
  vm_compute in Hp. injection Hp as _ <-. reflexivity.
Defined.

(** X12. Whenever [process_files] returns on validated tables, a segment
    with a positive quota is reported with a percentage between 0 and
    100, and with exactly 100 as soon as its count reaches the quota. *)
Theorem fulfillment_is_capped_at_100 {kind : SortKind} (d : data_frame)
  (u : universe_frame) (r : list string) (ex : list excess_respondent)
  (ful : frame fulfillment_row) :
  validate_universe_file u = inr r -> validate_data_file d r = inr tt ->
  process_files d u r = inr (ex, ful) ->
  exists merged,
    reconcile d u r = inr merged
    /\ forall row q, In row (rows merged) -> m_quota row = Fin q -> (0 < q)%Q ->
         In (report_row row) (rows ful)
         /\ exists p,
              f_Fulfillment_Percentage (report_row row) = Fin p
              /\ (0 <= p)%Q /\ (p <= 100)%Q
              /\ ((q <= inject_Z (m_count row))%Q -> p = 100%Q).
Proof.
  intros Hu Hd Hp.
  destruct (returned_run d u r ex ful Hp)
    as (merged & parts & Hm & _ & _ & Hful).
  exists merged. split; [exact Hm|].
  intros row q Hrow Hq Hpos. split.
  - rewrite Hful. apply fulfillment_rows_in. exists row.
    repeat split; [exact Hrow|]. unfold has_quota. now rewrite Hq.
  - destruct (merged_row_facts d u r merged row Hm Hrow)
      as (_ & _ & Hc & _ & Hfp & _).
    destruct (report_row_fields row) as (_ & _ & _ & ->).
    rewrite Hfp, Hq. now apply fulfillment_with_positive_quota.
Qed.

Lemma fulfillment_is_capped_at_100_witness :
  validate_universe_file scenario_A_universe = inr ["1B+"]
  /\ validate_data_file scenario_A_data ["1B+"] = inr tt
  /\ exists merged ex ful,
       process_files (kind := insertion_sort_kind)
         scenario_A_data scenario_A_universe ["1B+"] = inr (ex, ful)
       /\ reconcile scenario_A_data scenario_A_universe ["1B+"] = inr merged
       /\ map m_quota (rows merged) = [Fin 2]
       /\ map f_Fulfillment_Percentage (rows ful) = [Fin 100].
Proof.
  assert (Hu : validate_universe_file scenario_A_universe = inr ["1B+"])
    by (vm_compute; reflexivity).
  assert (Hd : validate_data_file scenario_A_data ["1B+"] = inr tt)
    by (vm_compute; reflexivity).
  split; [exact Hu|]. split; [exact Hd|].
  destruct (process_files (kind := insertion_sort_kind)
              scenario_A_data scenario_A_universe ["1B+"])
    as [e|[ex ful]] eqn:Hp; [vm_compute in Hp; discriminate|].
  destruct (fulfillment_is_capped_at_100 (kind := insertion_sort_kind)
              scenario_A_data scenario_A_universe ["1B+"] ex ful Hu Hd Hp)
    as (merged & Hm & _).
  exists merged, ex, ful. split; [reflexivity|]. split; [exact Hm|].
  vm_compute in Hm. injection Hm as <-. split; [reflexivity|].
  vm_compute in Hp. injection Hp as _ <-. reflexivity.
Defined.

Lemma segment_of_some (x : respondent) (c i v : string) :
  segment_of x = Some (c, i, v) <->
  r_Country x = Some c /\ r_Industry x = Some i /\ r_Revenue_Range x = Some v.
Proof.
  unfold segment_of.
  destruct (r_Country x), (r_Industry x), (r_Revenue_Range x); split;
    try discriminate; try (intros (H1 & H2 & H3); discriminate).
  - intros [= -> -> ->]. tauto.
  - intros ([= ->] & [= ->] & [= ->]). reflexivity.
Qed.

Lemma ids_of_in (k : segment) (rs : list respondent) (id : Z) :
  In id (ids_of k rs) <->
  exists x, In x rs /\ segment_of x = Some k /\ responseid x = id.
Proof.
  unfold ids_of. rewrite in_map_iff. split.
  - intros (x & Hid & Hx). apply filter_In in Hx as [Hin Hseg].
    exists x. repeat split; try assumption.
    unfold in_segment in Hseg. destruct (segment_of x) as [k'|]; [|discriminate].
    apply segment_eqb_eq in Hseg. now subst.
  - intros (x & Hin & Hseg & Hid). exists x. split; [exact Hid|].
    apply filter_In. split; [exact Hin|].
    unfold in_segment. rewrite Hseg. apply segment_eqb_refl.
Qed.

Lemma same_segment_melted (c i v col : string) (row : quota_row) :
  same_segment (c, i, v) (melted col row) = true <->
  c = q_Country row /\ i = q_Industry row /\ v = col.
Proof.
  unfold same_segment, melted, get. cbn.
  rewrite !andb_true_iff, !String.eqb_eq. tauto.
Qed.

(** X13. Whenever [process_files] returns on validated tables, nothing in
    the two outputs is made up. Every excess row names a respondent of
    the data file, with the country, industry and revenue range of that
    respondent, and counts the respondents of that segment. Every
    fulfillment row is of a segment that has respondents, counts them,
    and reports as its quota the number that the universe file holds for
    that country and industry in the column of that revenue range: a
    segment of the universe file without respondents is in neither
    output. *)
Theorem outputs_come_from_the_tables {kind : SortKind} (d : data_frame)
  (u : universe_frame) (r : list string) (ex : list excess_respondent)
  (ful : frame fulfillment_row) :
  validate_universe_file u = inr r -> validate_data_file d r = inr tt ->
  process_files d u r = inr (ex, ful) ->
  (forall e, In e ex ->
     (exists x, In x (d_rows d)
                /\ responseid x = e_Response_ID e
                /\ r_Country x = Some (e_Country e)
                /\ r_Industry x = Some (e_Industry e)
                /\ r_Revenue_Range x = Some (e_Revenue_Range e))
     /\ e_Count e =
        Z.of_nat (length (ids_of (excess_segment e) (d_rows d))))
  /\ (forall f, In f (rows ful) ->
        1 <= f_Count f
        /\ f_Count f =
           Z.of_nat (length (ids_of (fulfillment_segment f) (d_rows d)))
        /\ In (f_Revenue_Range f) r
        /\ f_Quota f <> NaN
        /\ exists row,
             In row (u_rows u)
             /\ q_Country row = f_Country f
             /\ q_Industry row = f_Industry f
             /\ get row (f_Revenue_Range f) = Number (f_Quota f)).
Proof.
  intros Hu Hd Hp.
  destruct (returned_run d u r ex ful Hp)
    as (merged & parts & Hm & HF & Hex & Hful).
  split.
  - intros e He. subst ex.
    destruct (concat_parts_in _ _ _ _ HF He) as (row & part & Hrow & Hpart & Hin).
    destruct (excess_of_row_in row part e Hpart Hin) as (_ & id & Hid & ->).
    destruct (merged_row_facts d u r merged row Hm Hrow)
      as (Hids & Hcount & _).
    unfold excess_segment.
    destruct (excess_entry_fields row id) as (-> & _ & -> & _ & ->).
    split.
    + rewrite Hids in Hid. apply (Permutation_in _ (sorted_perm _)) in Hid.
      apply ids_of_in in Hid as (x & Hx & Hseg & Hrid).
      exists x. split; [exact Hx|]. split; [exact Hrid|].
      assert (Hk : exists c i v, m_key row = (c, i, v))
        by (destruct (m_key row) as [[c i] v]; now exists c, i, v).
      destruct Hk as (c & i & v & Hk).
      unfold excess_entry. rewrite Hk in *. cbn.
      now apply segment_of_some.
    + now rewrite Hcount, Hids, sorted_length.
  - intros f Hf. rewrite Hful in Hf.
    apply fulfillment_rows_in in Hf as (row & Hrow & Hq & ->).
    assert (Hnotna : m_quota row <> NaN).
    { unfold has_quota in Hq. intros E. rewrite E in Hq. discriminate. }
    destruct (merged_row_facts d u r merged row Hm Hrow)
      as (Hids & Hcount & Hc1 & _ & _ & [Hnan|(m & Hm' & Hs & Hlq)]);
      [congruence|].
    destruct (report_row_fields row) as (Hkey & -> & -> & _).
    split; [exact Hc1|]. split.
    { rewrite Hkey. now rewrite Hcount, Hids, sorted_length. }
    apply unpivot_in in Hm' as (col & qrow & Hcol & Hqrow & ->).
    unfold fulfillment_segment in Hkey.
    destruct (m_key row) as [[c i] v] eqn:Hk.
    apply same_segment_melted in Hs as (-> & -> & ->).
    injection Hkey as -> -> ->.
    split; [exact Hcol|]. split; [exact Hnotna|].
    exists qrow. repeat split; try assumption.
Qed.

Lemma outputs_come_from_the_tables_witness :
  validate_universe_file (two_segments_universe (Number 2) Blank) = inr ["1B+"]
  /\ validate_data_file two_segments_data ["1B+"] = inr tt
  /\ exists ex ful,
       process_files (kind := insertion_sort_kind) two_segments_data
         (two_segments_universe (Number 2) Blank) ["1B+"] = inr (ex, ful)
       /\ map e_Response_ID ex = [5]
       /\ map f_Industry (rows ful) = ["Tech"]
       /\ forall f, In f (rows ful) -> 1 <= f_Count f.
Proof.
  assert (Hu : validate_universe_file (two_segments_universe (Number 2) Blank)
               = inr ["1B+"]) by (vm_compute; reflexivity).
  assert (Hd : validate_data_file two_segments_data ["1B+"] = inr tt)
    by (vm_compute; reflexivity).
  split; [exact Hu|]. split; [exact Hd|].
  destruct (process_files (kind := insertion_sort_kind) two_segments_data
              (two_segments_universe (Number 2) Blank) ["1B+"])
    as [e|[ex ful]] eqn:Hp; [vm_compute in Hp; discriminate|].
  destruct (outputs_come_from_the_tables (kind := insertion_sort_kind)
              two_segments_data (two_segments_universe (Number 2) Blank)
              ["1B+"] ex ful Hu Hd Hp)
    as (_ & Hf).
  exists ex, ful. split; [reflexivity|].
  split; [vm_compute in Hp; injection Hp as <- _; reflexivity|].
  split; [vm_compute in Hp; injection Hp as _ <-; reflexivity|].
  intros f Hin. now apply Hf.
Defined.

(* ------------------------------------------------------------------ *)
(** ** The segment aggregate (Step 1) *)

Lemma keys_ascending_nodup (groups : list (segment * list Z)) :
  keys_ascending groups -> NoDup (map fst groups).
Proof.
  induction 1 as [|g rest Hs IH Hall]; simpl; constructor; [|exact IH].
  intros Hin. apply in_map_iff in Hin as (h & Hk & Hh).
  rewrite Forall_forall in Hall. specialize (Hall h Hh).
  unfold key_lt in Hall. rewrite Hk in Hall.
  pose proof (proj2 (segment_compare_eq (fst g) (fst g)) eq_refl). congruence.
Qed.

Lemma add_to_group_total (k : segment) (id : Z) (groups : list (segment * list Z)) :
  total (map (fun g => Z.of_nat (length (snd g))) (add_to_group k id groups))
  = total (map (fun g => Z.of_nat (length (snd g))) groups) + 1.
Proof.
  unfold total. induction groups as [|[k' ids] rest IH];
    cbn [add_to_group map fold_right snd]; [reflexivity|].
  destruct (segment_compare k k'); cbn [map fold_right snd].
  - rewrite length_app, Nat2Z.inj_add. cbn [length]. lia.
  - cbn [length]. lia.
  - rewrite IH. lia.
Qed.

Lemma groupby_total (rs : list respondent) :
  total (map (fun g => Z.of_nat (length (snd g))) (groupby rs))
  = Z.of_nat (length (filter has_segment rs)).
Proof.
  induction rs as [|x rs IH] using rev_ind; [reflexivity|].
  rewrite groupby_snoc, filter_app, length_app, Nat2Z.inj_add.
  cbn [filter]. unfold add_row.
  destruct (segment_of x) as [k|] eqn:E.
  - replace (has_segment x) with true by (unfold has_segment; now rewrite E).
    rewrite add_to_group_total, IH. cbn [length]. lia.
  - replace (has_segment x) with false by (unfold has_segment; now rewrite E).
    rewrite IH. cbn [length]. lia.
Qed.

(** X14. When the data file has responseid and the three key columns, the
    aggregation of Step 1 returns one row for each segment that has a
    respondent and none for any other, in strictly ascending order of the
    key (country, then industry, then revenue range). The row of a segment
    holds the ids of its respondents in ascending order and their number
    as its count, which is at least 1. *)
Theorem grouped_data_has_one_row_per_segment (d : data_frame) :
  incl ["Country"; "Industry"; "Revenue Range"; "responseid"] (d_columns d) ->
  exists grouped_data,
    groupby_agg d ["Country"; "Industry"; "Revenue Range"] = inr grouped_data
    /\ columns grouped_data =
       ["Country"; "Industry"; "Revenue Range"; "count"; "response_ids"]
    /\ StronglySorted
         (fun g h => segment_compare (g_key g) (g_key h) = Lt)
         (rows grouped_data)
    /\ NoDup (map g_key (rows grouped_data))
    /\ (forall k, In k (map g_key (rows grouped_data)) <->
                  exists x, In x (d_rows d) /\ segment_of x = Some k)
    /\ forall g, In g (rows grouped_data) ->
         Permutation (g_response_ids g) (ids_of (g_key g) (d_rows d))
         /\ StronglySorted Z.le (g_response_ids g)
         /\ g_count g = Z.of_nat (length (ids_of (g_key g) (d_rows d)))
         /\ 1 <= g_count g.
Proof.
  intros Hcols. unfold groupby_agg.
  assert (Hby : missing_from (d_columns d)
                  ["Country"; "Industry"; "Revenue Range"] = []).
  { apply missing_from_nil. intros c Hc. apply Hcols. simpl in *. tauto. }
  assert (Hid : mem "responseid" (d_columns d) = true).
  { apply mem_in, Hcols. simpl. tauto. }
  rewrite Hby, Hid. eexists. split; [reflexivity|]. cbn [columns rows].
  split; [reflexivity|].
  pose proof (groupby_ascending (d_rows d)) as Hasc.
  split.
  { eapply strongly_sorted_map; [|exact Hasc]. intros x y _ _ H. exact H. }
  split.
  { rewrite map_map. cbn [agg g_key]. now apply keys_ascending_nodup. }
  split.
  { intros k. rewrite map_map. cbn [agg g_key]. split.
    - intros Hk. apply in_map_iff in Hk as ([k' ids] & <- & Hg).
      apply groupby_spec in Hg as (-> & Hne). cbn [fst].
      destruct (ids_of k' (d_rows d)) as [|id ids] eqn:E; [congruence|].
      assert (Hin : In id (ids_of k' (d_rows d))) by (rewrite E; now left).
      apply ids_of_in in Hin as (x & Hx & Hseg & _). now exists x.
    - intros (x & Hx & Hseg).
      apply in_map_iff. exists (k, ids_of k (d_rows d)). split; [reflexivity|].
      apply groupby_spec. split; [reflexivity|].
      assert (Hin : In (responseid x) (ids_of k (d_rows d)))
        by (apply ids_of_in; now exists x).
      intros E. rewrite E in Hin. destruct Hin. }
  intros g Hg. apply in_map_iff in Hg as ([k ids] & <- & Hg).
  apply groupby_spec in Hg as (-> & Hne). cbn [agg g_key g_count g_response_ids fst snd].
  split; [apply sorted_perm|]. split; [apply sorted_ascending|].
  split; [reflexivity|].
  destruct (ids_of k (d_rows d)); [congruence|]. simpl length. lia.
Qed.

Lemma grouped_data_has_one_row_per_segment_witness :
  incl ["Country"; "Industry"; "Revenue Range"; "responseid"]
       (d_columns two_segments_data)
  /\ exists grouped_data,
       groupby_agg two_segments_data ["Country"; "Industry"; "Revenue Range"]
       = inr grouped_data
       /\ map g_key (rows grouped_data) =
          [("USA", "Retail", "1B+"); ("USA", "Tech", "1B+")]
       /\ map g_response_ids (rows grouped_data) = [[1; 2]; [3; 4; 5]].
Proof.
  assert (H : incl ["Country"; "Industry"; "Revenue Range"; "responseid"]
                   (d_columns two_segments_data))
    by (intros c Hc; simpl in *; tauto).
  split; [exact H|].
  destruct (grouped_data_has_one_row_per_segment two_segments_data H)
    as (grouped_data & Hg & _).
  exists grouped_data. split; [exact Hg|].
  vm_compute in Hg. injection Hg as <-. split; reflexivity.
Defined.

(** X15. Each respondent that has a country, an industry and a revenue
    range is counted in exactly one segment, and no other respondent is
    counted: the counts of the aggregate add up to the number of such
    respondents. *)
Theorem counts_add_up_to_the_respondents (d : data_frame) :
  incl ["Country"; "Industry"; "Revenue Range"; "responseid"] (d_columns d) ->
  exists grouped_data,
    groupby_agg d ["Country"; "Industry"; "Revenue Range"] = inr grouped_data
    /\ total (map g_count (rows grouped_data))
       = Z.of_nat (length (filter has_segment (d_rows d))).
Proof.
  intros Hcols. unfold groupby_agg.
  assert (Hby : missing_from (d_columns d)
                  ["Country"; "Industry"; "Revenue Range"] = []).
  { apply missing_from_nil. intros c Hc. apply Hcols. simpl in *. tauto. }
  assert (Hid : mem "responseid" (d_columns d) = true).
  { apply mem_in, Hcols. simpl. tauto. }
  rewrite Hby, Hid. eexists. split; [reflexivity|]. cbn [rows].
  rewrite map_map. cbn [agg g_count]. apply groupby_total.
Qed.

Lemma counts_add_up_to_the_respondents_witness :
  incl ["Country"; "Industry"; "Revenue Range"; "responseid"]
       (d_columns two_segments_data)
  /\ exists grouped_data,
       groupby_agg two_segments_data ["Country"; "Industry"; "Revenue Range"]
       = inr grouped_data
       /\ total (map g_count (rows grouped_data)) = 5.
Proof.
  assert (H : incl ["Country"; "Industry"; "Revenue Range"; "responseid"]
                   (d_columns two_segments_data))
    by (intros c Hc; simpl in *; tauto).
  split; [exact H|].
  destruct (counts_add_up_to_the_respondents two_segments_data H)
    as (grouped_data & Hg & Ht).
  exists grouped_data. split; [exact Hg|]. exact Ht.
Defined.

(* ------------------------------------------------------------------ *)
(** ** The order of the respondent rows does not matter *)

Lemma ascending_unique (l1 l2 : list Z) :
  StronglySorted Z.le l1 -> StronglySorted Z.le l2 -> Permutation l1 l2 ->
  l1 = l2.
Proof.
  intros H1. revert l2. induction H1 as [|a t1 Hs1 IH Hall1]; intros l2 H2 Hp.
  - apply Permutation_nil in Hp. now subst.
  - destruct l2 as [|b t2];
      [apply Permutation_sym, Permutation_nil in Hp; discriminate|].
    inversion H2 as [|? ? Hs2 Hall2]; subst.
    rewrite Forall_forall in Hall1, Hall2.
    assert (Hab : a = b).
    { assert (Hb : In b (a :: t1))
        by (apply (Permutation_in _ (Permutation_sym Hp)); now left).
      assert (Ha : In a (b :: t2)) by (apply (Permutation_in _ Hp); now left).
      destruct Hb as [Hb|Hb]; [exact Hb|].
      destruct Ha as [Ha|Ha]; [now symmetry|].
      apply Hall1 in Hb. apply Hall2 in Ha. lia. }
    subst b. f_equal. apply IH; [exact Hs2|].
    now apply Permutation_cons_inv in Hp.
Qed.

Lemma sorted_of_permutation (l l' : list Z) :
  Permutation l l' -> sorted l = sorted l'.
Proof.
  intros Hp. apply ascending_unique; try apply sorted_ascending.
  rewrite (sorted_perm l), (sorted_perm l'). exact Hp.
Qed.

Lemma ids_of_permutation (k : segment) (rs rs' : list respondent) :
  Permutation rs rs' -> Permutation (ids_of k rs) (ids_of k rs').
Proof.
  unfold ids_of. induction 1 as [|x l l' Hp IH|x y l|l l' l'' H1 IH1 H2 IH2];
    simpl.
  - constructor.
  - destruct (in_segment k x); simpl; [now constructor|exact IH].
  - destruct (in_segment k x), (in_segment k y); simpl;
      try apply Permutation_refl. apply perm_swap.
  - now transitivity (map responseid (filter (in_segment k) l')).
Qed.

(** Two lists of groups in strictly ascending key order that hold, key by
    key, the same ids up to their order, aggregate to the same rows. *)
Lemma agg_of_same_groups (g1 g2 : list (segment * list Z)) :
  keys_ascending g1 -> keys_ascending g2 ->
  (forall k, match lookup k g1, lookup k g2 with
             | Some a, Some b => Permutation a b
             | None, None => True
             | _, _ => False
             end) ->
  map agg g1 = map agg g2.
Proof.
  intros H1. revert g2.
  induction H1 as [|[k1 ids1] t1 Hs1 IH Hall1]; intros g2 H2 Hsame.
  - destruct g2 as [|[k2 ids2] t2]; [reflexivity|].
    specialize (Hsame k2). simpl in Hsame.
    rewrite segment_eqb_refl in Hsame. destruct Hsame.
  - destruct g2 as [|[k2 ids2] t2].
    { specialize (Hsame k1). simpl in Hsame.
      rewrite segment_eqb_refl in Hsame. destruct Hsame. }
    inversion H2 as [|? ? Hs2 Hall2]; subst.
    assert (Hk : k1 = k2).
    { destruct (segment_compare k1 k2) eqn:E.
      - now apply segment_compare_eq.
      - exfalso. specialize (Hsame k1). simpl in Hsame.
        rewrite segment_eqb_refl in Hsame.
        unfold segment_eqb in Hsame at 1. rewrite E in Hsame.
        rewrite lookup_below in Hsame; [exact Hsame|].
        eapply Forall_impl; [|exact Hall2].
        intros g Hg. unfold key_lt in Hg. simpl in Hg.
        eapply segment_compare_trans; eauto.
      - exfalso. specialize (Hsame k2). simpl in Hsame.
        rewrite segment_eqb_refl in Hsame.
        assert (E' : segment_compare k2 k1 = Lt)
          by (rewrite segment_compare_antisym, E; reflexivity).
        unfold segment_eqb in Hsame at 1. rewrite E' in Hsame.
        rewrite lookup_below in Hsame; [exact Hsame|].
        eapply Forall_impl; [|exact Hall1].
        intros g Hg. unfold key_lt in Hg. simpl in Hg.
        eapply segment_compare_trans; eauto. }
    subst k2. simpl. f_equal.
    + pose proof (Hsame k1) as Hk. simpl in Hk.
      rewrite segment_eqb_refl in Hk.
      unfold agg. cbn [fst snd]. f_equal.
      * f_equal. now apply Permutation_length.
      * now apply sorted_of_permutation.
    + apply IH; [exact Hs2|].
      intros k. specialize (Hsame k). simpl in Hsame.
      destruct (segment_eqb k k1) eqn:E; [|exact Hsame].
      apply segment_eqb_eq in E. subst k.
      rewrite !lookup_below; [exact I|exact Hall2|exact Hall1].
Qed.

Lemma groupby_of_permutation (rs rs' : list respondent) :
  Permutation rs rs' -> map agg (groupby rs) = map agg (groupby rs').
Proof.
  intros Hp. apply agg_of_same_groups; try apply groupby_ascending.
  intros k. rewrite !groupby_lookup.
  pose proof (ids_of_permutation k rs rs' Hp) as Hids.
  destruct (ids_of k rs) as [|a l], (ids_of k rs') as [|b l'];
    try exact I; try exact Hids.
  - apply Permutation_nil in Hids. discriminate.
  - apply Permutation_sym, Permutation_nil in Hids. discriminate.
Qed.

(** X16. [process_files] does not depend on the order of the rows of the
    data file: on two data files with the same columns and the same rows
    in different orders it returns the same excess respondents, in the
    same order, and the same fulfillment table, or raises the same
    exception. *)
Theorem respondent_order_is_irrelevant {kind : SortKind}
  (cols : list string) (rs rs' : list respondent)
  (u : universe_frame) (r : list string) :
  Permutation rs rs' ->
  process_files {| d_columns := cols; d_rows := rs |} u r
  = process_files {| d_columns := cols; d_rows := rs' |} u r.
Proof.
  intros Hp. unfold process_files, reconcile, groupby_agg.
  cbn [d_columns d_rows].
  now rewrite (groupby_of_permutation rs rs' Hp).
Qed.

Lemma respondent_order_is_irrelevant_witness :
  Permutation (d_rows two_segments_data) (rev (d_rows two_segments_data))
  /\ process_files (kind := insertion_sort_kind)
       {| d_columns := data_columns; d_rows := d_rows two_segments_data |}
       (two_segments_universe (Number 1) (Number 1)) ["1B+"]
     = process_files (kind := insertion_sort_kind)
         {| d_columns := data_columns;
            d_rows := rev (d_rows two_segments_data) |}
         (two_segments_universe (Number 1) (Number 1)) ["1B+"].
Proof.
  assert (H : Permutation (d_rows two_segments_data)
                          (rev (d_rows two_segments_data)))
    by apply Permutation_rev.
  split; [exact H|].
  exact (respondent_order_is_irrelevant (kind := insertion_sort_kind)
           data_columns _ _ (two_segments_universe (Number 1) (Number 1))
           ["1B+"] H).
Defined.

(* ------------------------------------------------------------------ *)
(** ** How often a segment stands in [merged_df] (Step 3) *)



Lemma occurrences_absent (k : segment) (keys : list segment) :
  ~ In k keys -> occurrences k keys = 0%nat.
Proof.
  unfold occurrences. induction keys as [|k' keys IH]; intros H; simpl.
  - reflexivity.
  - destruct (segment_eqb k k') eqn:E.
    + apply segment_eqb_eq in E. subst. destruct H. now left.
    + apply IH. intros Hin. apply H. now right.
Qed.








(* ------------------------------------------------------------------ *)
(** ** [read_file] *)

Lemma endswith_spec (s suffix : string) :
  endswith s suffix = true <-> exists stem, s = (stem ++ suffix)%string.
Proof.
  split.
  - induction s as [|a s IH]; cbn [endswith].
    + rewrite orb_false_r. intros H. apply String.eqb_eq in H.
      exists EmptyString. now subst.
    + intros H. apply orb_true_iff in H as [H|H].
      * apply String.eqb_eq in H. exists EmptyString. now subst.
      * destruct (IH H) as (stem & ->). now exists (String a stem).
  - intros (stem & ->). induction stem as [|a stem IH].
    + cbn [append]. destruct suffix; cbn [endswith];
        rewrite String.eqb_refl; reflexivity.
    + cbn [append endswith]. rewrite IH. apply orb_true_r.
Qed.

Lemma endswith_not (s suffix : string) :
  endswith s suffix = false <-> forall stem, s <> (stem ++ suffix)%string.
Proof.
  split.
  - intros H stem E.
    assert (Ht : endswith s suffix = true) by (apply endswith_spec; now exists stem).
    congruence.
  - intros H. destruct (endswith s suffix) eqn:E; [|reflexivity].
    apply endswith_spec in E as (stem & E). destruct (H stem E).
Qed.

(** X18. [read_file] chooses its reader by the end of the file name, which
    it compares as it is: a name that ends in .csv goes to [read_csv],
    any other name that ends in .xlsx goes to [read_excel]. What the
    reader returns is returned; an exception of the reader, of whatever
    class, becomes a [ValueError] whose message is that of the reader
    after "Error reading file: ". *)
Theorem read_file_reads_by_suffix {F : Type} {reader : Reader F}
  (file : uploaded_file) (stem : string) :
  (name file = (stem ++ ".csv")%string ->
   read_file file =
   match read_csv file with
   | inl e => inl (Raise ValueError ("Error reading file: " ++ exn_str e))
   | inr df => inr df
   end)
  /\ (name file = (stem ++ ".xlsx")%string ->
      (forall s, name file <> (s ++ ".csv")%string) ->
      read_file file =
      match read_excel file with
      | inl e => inl (Raise ValueError ("Error reading file: " ++ exn_str e))
      | inr df => inr df
      end).
Proof.
  unfold read_file. split.
  - intros H.
    assert (E : endswith (name file) ".csv" = true)
      by (apply endswith_spec; now exists stem).
    rewrite E. reflexivity.
  - intros H Hn.
    assert (E : endswith (name file) ".csv" = false)
      by (now apply endswith_not).
    assert (E' : endswith (name file) ".xlsx" = true)
      by (apply endswith_spec; now exists stem).
    rewrite E, E'. reflexivity.
Qed.

Lemma read_file_reads_by_suffix_witness :
  name (file_named "quotas.xlsx") = ("quotas" ++ ".xlsx")%string
  /\ (forall s, name (file_named "quotas.xlsx") <> (s ++ ".csv")%string)
  /\ read_file (reader := fixed_reader scenario_A_universe)
       (file_named "quotas.xlsx")
     = inl (Raise ValueError "Error reading file: not a workbook")
  /\ read_file (reader := fixed_reader scenario_A_universe)
       (file_named "quotas.csv")
     = inr scenario_A_universe.
Proof.
  assert (H1 : name (file_named "quotas.xlsx") = ("quotas" ++ ".xlsx")%string)
    by reflexivity.
  assert (H2 : forall s, name (file_named "quotas.xlsx")
                         <> (s ++ ".csv")%string).
  { apply endswith_not. vm_compute. reflexivity. }
  split; [exact H1|]. split; [exact H2|]. split.
  - exact (proj2 (read_file_reads_by_suffix
                    (reader := fixed_reader scenario_A_universe)
                    (file_named "quotas.xlsx") "quotas") H1 H2).
  - exact (proj1 (read_file_reads_by_suffix
                    (reader := fixed_reader scenario_A_universe)
                    (file_named "quotas.csv") "quotas") eq_refl).
Defined.

(** X19. A file whose name ends neither in .csv nor in .xlsx, in these
    very letters, is not read: [read_file] fails with the [ValueError]
    "Error reading file: Unsupported file format. Please upload a CSV or
    Excel file.", whatever the file holds. A name in capitals, as
    DATA.CSV, is such a name. *)
Theorem read_file_rejects_other_names {F : Type} {reader : Reader F}
  (file : uploaded_file) :
  (forall s, name file <> (s ++ ".csv")%string) ->
  (forall s, name file <> (s ++ ".xlsx")%string) ->
  read_file file =
  inl (Raise ValueError
         "Error reading file: Unsupported file format. Please upload a CSV or Excel file.").
Proof.
  intros H1 H2. unfold read_file.
  apply endswith_not in H1, H2. rewrite H1, H2. reflexivity.
Qed.

Lemma read_file_rejects_other_names_witness :
  (forall s, name (file_named "DATA.CSV") <> (s ++ ".csv")%string)
  /\ (forall s, name (file_named "DATA.CSV") <> (s ++ ".xlsx")%string)
  /\ read_file (reader := fixed_reader scenario_A_data) (file_named "DATA.CSV")
     = inl (Raise ValueError
              "Error reading file: Unsupported file format. Please upload a CSV or Excel file.").
Proof.
  assert (H1 : forall s, name (file_named "DATA.CSV") <> (s ++ ".csv")%string)
    by (apply endswith_not; vm_compute; reflexivity).
  assert (H2 : forall s, name (file_named "DATA.CSV") <> (s ++ ".xlsx")%string)
    by (apply endswith_not; vm_compute; reflexivity).
  split; [exact H1|]. split; [exact H2|].
  exact (read_file_rejects_other_names (reader := fixed_reader scenario_A_data)
           (file_named "DATA.CSV") H1 H2).
Defined.

(* ------------------------------------------------------------------ *)
(** ** [main] *)

Lemma for_each_inl {A : Type} (body : A -> result unit) (l : list A) (e : exn) :
  for_each body l = inl e -> exists x, In x l /\ body x = inl e.
Proof.
  induction l as [|x rest IH]; simpl; [discriminate|].
  destruct (body x) as [e'|[]] eqn:E; simpl.
  - intros [= <-]. exists x. split; [now left|exact E].
  - intros H. destruct (IH H) as (y & Hy & Hb). exists y. split; [now right|exact Hb].
Qed.

Lemma read_file_raises_value_error {F : Type} {reader : Reader F}
  (file : uploaded_file) (e : exn) :
  read_file file = inl e -> exn_type e = ValueError.
Proof.
  unfold read_file. destruct (if endswith _ _ then _ else _); [|discriminate].
  unfold raise. now intros [= <-].
Qed.

Lemma validate_universe_file_raises_value_error (u : universe_frame) (e : exn) :
  validate_universe_file u = inl e -> exn_type e = ValueError.
Proof.
  unfold validate_universe_file.
  destruct (nonempty (missing_from _ _)); [unfold raise; now intros [= <-]|].
  destruct (negb (nonempty _)); [unfold raise; now intros [= <-]|].
  destruct (for_each _ _) as [e'|[]] eqn:E; simpl; [|discriminate].
  intros [= <-]. apply for_each_inl in E as (col & _ & E).
  destruct (negb _); [|discriminate]. unfold raise in E. now injection E as <-.
Qed.

Lemma process_files_raises_value_error {kind : SortKind} (d : data_frame)
  (u : universe_frame) (r : list string) (e : exn) :
  process_files d u r = inl e -> exn_type e = ValueError.
Proof.
  unfold process_files, try_except. destruct (bind _ _); [|discriminate].
  unfold raise. now intros [= <-].
Qed.

Lemma st_error_of_value_error (e : exn) :
  exn_type e = ValueError -> st_error e = ("Error: " ++ exn_str e)%string.
Proof. unfold st_error. now intros ->. Qed.

(** X20. However a run of [main] with both files fails, in reading,
    validating or processing, the page ends with one error message, the
    one that the two [except] clauses make of the exception: "Error: "
    and its message for a [ValueError], "An unexpected error occurred: "
    and its message for any other. Before the message stand only the
    spinners of the steps that were begun; no result, table, download
    button or information is shown. A failure in reading or in
    processing is always answered by the first clause, since [read_file]
    and [process_files] raise whatever they catch anew as a
    [ValueError]. *)
Theorem main_shows_the_failure {kind : SortKind} {host : Host}
  (data_file universe_file : uploaded_file) (e : exn) :
  snd (results data_file universe_file) = inl e ->
  exists spinners,
    In spinners
       [[Spinner "Reading files..."];
        [Spinner "Reading files..."; Spinner "Validating files..."];
        [Spinner "Reading files..."; Spinner "Validating files...";
         Spinner "Processing files..."]]
    /\ main (Some data_file) (Some universe_file) =
       page ++ spinners ++ [Error (st_error e)]
    /\ (spinners <> [Spinner "Reading files..."; Spinner "Validating files..."] ->
        st_error e = ("Error: " ++ exn_str e)%string).
Proof.
  unfold main, results, then_, call, show.
  destruct (read_file data_file) as [e1|data_df] eqn:E1.
  { cbn. intros [= <-]. eexists. split; [left; reflexivity|].
    split; [reflexivity|]. intros _.
    exact (st_error_of_value_error e1 (read_file_raises_value_error _ _ E1)). }
  destruct (read_file universe_file) as [e2|universe_df] eqn:E2.
  { cbn. intros [= <-]. eexists. split; [left; reflexivity|].
    split; [reflexivity|]. intros _.
    exact (st_error_of_value_error e2 (read_file_raises_value_error _ _ E2)). }
  destruct (validate_universe_file universe_df) as [e3|revenue_ranges] eqn:E3.
  { cbn. intros [= <-]. eexists. split; [right; left; reflexivity|].
    split; [reflexivity|]. intros H. now destruct H. }
  destruct (validate_data_file data_df revenue_ranges) as [e4|[]] eqn:E4.
  { cbn. intros [= <-]. eexists. split; [right; left; reflexivity|].
    split; [reflexivity|]. intros H. now destruct H. }
  destruct (process_files data_df universe_df revenue_ranges) as [e5|[ex ful]] eqn:E5.
  { cbn. intros [= <-]. eexists. split; [right; right; left; reflexivity|].
    split; [reflexivity|]. intros _.
    exact (st_error_of_value_error
             e5 (process_files_raises_value_error _ _ _ _ E5)). }
  cbn. destruct (nonempty ex); cbn; discriminate.
Qed.

Lemma main_shows_the_failure_witness :
  snd (results (kind := insertion_sort_kind)
         (host := fixed_host unmatched_data (one_cell_universe (Number NInf)))
         (file_named "data.csv") (file_named "quotas.csv"))
  = inl (Raise ValueError
           "Error processing files: cannot convert float infinity to integer")
  /\ exists spinners,
       In spinners
          [[Spinner "Reading files..."];
           [Spinner "Reading files..."; Spinner "Validating files..."];
           [Spinner "Reading files..."; Spinner "Validating files...";
            Spinner "Processing files..."]]
       /\ main (kind := insertion_sort_kind)
            (host := fixed_host unmatched_data
                       (one_cell_universe (Number NInf)))
            (Some (file_named "data.csv")) (Some (file_named "quotas.csv"))
          = page (host := fixed_host unmatched_data
                            (one_cell_universe (Number NInf)))
              ++ spinners
              ++ [Error "Error: Error processing files: cannot convert float infinity to integer"].
Proof.
  assert (H : snd (results (kind := insertion_sort_kind)
                     (host := fixed_host unmatched_data
                                (one_cell_universe (Number NInf)))
                     (file_named "data.csv") (file_named "quotas.csv"))
              = inl (Raise ValueError
                       "Error processing files: cannot convert float infinity to integer"))
    by (vm_compute; reflexivity).
  split; [exact H|].
  destruct (main_shows_the_failure (kind := insertion_sort_kind)
              (host := fixed_host unmatched_data
                         (one_cell_universe (Number NInf)))
              (file_named "data.csv") (file_named "quotas.csv") _ H)
    as (spinners & Hin & Hmain & _).
  exists spinners. split; [exact Hin|exact Hmain].
Defined.



(** X22. The universe file is validated first: when both files are read
    and [validate_universe_file] rejects the universe file, the page ends
    with the message of that rejection, whatever the data file holds. *)
Theorem universe_file_is_validated_first {kind : SortKind} {host : Host}
  (data_file universe_file : uploaded_file) (data_df : data_frame)
  (universe_df : universe_frame) (e : exn) :
  read_file (reader := data_reader) data_file = inr data_df ->
  read_file (reader := universe_reader) universe_file = inr universe_df ->
  validate_universe_file universe_df = inl e ->
  main (Some data_file) (Some universe_file) =
  page ++ [Spinner "Reading files..."; Spinner "Validating files...";
           Error ("Error: " ++ exn_str e)].
Proof.
  intros Hd Hu Hvu.
  unfold main, results, then_, call, show.
  rewrite Hd, Hu, Hvu. cbn.
  now rewrite (st_error_of_value_error
                 e (validate_universe_file_raises_value_error _ _ Hvu)).
Qed.

Lemma universe_file_is_validated_first_witness :
  read_file (reader := data_reader (Host := fixed_host scenario_C_data
                                               two_text_columns))
    (file_named "data.csv") = inr scenario_C_data
  /\ read_file (reader := universe_reader (Host := fixed_host scenario_C_data
                                                    two_text_columns))
       (file_named "quotas.csv") = inr two_text_columns
  /\ validate_universe_file two_text_columns =
     inl (Raise ValueError
            "Universe file column '500M to 1B' must contain numeric values.")
  /\ main (kind := insertion_sort_kind)
       (host := fixed_host scenario_C_data two_text_columns)
       (Some (file_named "data.csv")) (Some (file_named "quotas.csv"))
     = page (host := fixed_host scenario_C_data two_text_columns)
         ++ [Spinner "Reading files..."; Spinner "Validating files...";
             Error "Error: Universe file column '500M to 1B' must contain numeric values."].
Proof.
  assert (H1 : read_file (reader := data_reader
                            (Host := fixed_host scenario_C_data two_text_columns))
                 (file_named "data.csv") = inr scenario_C_data)
    by (vm_compute; reflexivity).
  assert (H2 : read_file (reader := universe_reader
                            (Host := fixed_host scenario_C_data two_text_columns))
                 (file_named "quotas.csv") = inr two_text_columns)
    by (vm_compute; reflexivity).
  assert (H3 : validate_universe_file two_text_columns =
               inl (Raise ValueError
                      "Universe file column '500M to 1B' must contain numeric values."))
    by (vm_compute; reflexivity).
  split; [exact H1|]. split; [exact H2|]. split; [exact H3|].
  exact (universe_file_is_validated_first (kind := insertion_sort_kind)
           (host := fixed_host scenario_C_data two_text_columns)
           (file_named "data.csv") (file_named "quotas.csv")
           scenario_C_data two_text_columns _ H1 H2 H3).
Defined.
